(** * HlsVideoPlayer: playback-source selection, transport commands and
      control visibility

    A shallow embedding of [web/src/components/player/HlsVideoPlayer.tsx].

    The component is a React function component.  Its persistent data are
    the [useState] cells, the [hlsRef] ref, the props, and the outside world
    it acts on: the video element behind [videoRef], the pending
    [setTimeout] callbacks and the toasts it has emitted.  Every callback of
    the source is a function on that data; [step] runs one callback and then
    the effects whose dependency arrays changed, the way React re-renders
    after an event.

    Numbers are JavaScript doubles in the source; they are rationals here
    (no NaN, no rounding).  The muted/volume overlay state, the fullscreen
    toggler and the zoom wrapper do not take part in any transition below
    and are left out. *)

From Stdlib Require Import QArith Qminmax ZArith Bool List String Arith Lia.
Import ListNotations.
Local Open Scope string_scope.
Local Open Scope Q_scope.

(** ** Numbers *)

(** [a < b] on numbers, as a boolean. *)
Definition Qltb (a b : Q) : bool := negb (Qle_bool b a).

(** [!n] for a number [n]: only zero is falsy (there is no NaN in [Q]). *)
Definition falsy_number (n : Q) : bool := Qeq_bool n 0.

(** [!!s] for a string [s]: the empty string is the only falsy one. *)
Definition truthy_string (s : string) : bool := negb (String.eqb s "").

(** [!!r] for a ref's [current] or an optional state cell. *)
Definition is_set {A : Type} (o : option A) : bool :=
  match o with Some _ => true | None => false end.

(** ** The media sink: the [HTMLVideoElement] behind [videoRef.current] *)

Module DOMRect.
Record t : Type := mk { left : Q; right : Q; top : Q; bottom : Q }.
End DOMRect.

Record Sink : Type := mkSink {
  src : string;
  playbackRate : Q;
  defaultPlaybackRate : Q;
  currentTime : Q;
  paused : bool;
  canPlayType : string -> string;
  getBoundingClientRect : DOMRect.t
}.

Definition sink_set_src (s : string) (v : Sink) : Sink :=
  mkSink s (playbackRate v) (defaultPlaybackRate v) (currentTime v) (paused v)
         (canPlayType v) (getBoundingClientRect v).

Definition sink_set_playbackRate (r : Q) (v : Sink) : Sink :=
  mkSink (src v) r (defaultPlaybackRate v) (currentTime v) (paused v)
         (canPlayType v) (getBoundingClientRect v).

Definition sink_set_currentTime (t : Q) (v : Sink) : Sink :=
  mkSink (src v) (playbackRate v) (defaultPlaybackRate v) t (paused v)
         (canPlayType v) (getBoundingClientRect v).

Definition sink_set_paused (b : bool) (v : Sink) : Sink :=
  mkSink (src v) (playbackRate v) (defaultPlaybackRate v) (currentTime v) b
         (canPlayType v) (getBoundingClientRect v).

(** [video.load()].  The element's load algorithm sets [playbackRate] back to
    [defaultPlaybackRate]; that is the one effect of a reload the component
    has to undo, and the only one kept here. *)
Definition sink_load (v : Sink) : Sink :=
  sink_set_playbackRate (defaultPlaybackRate v) v.

(** ** The compatibility engine: an [Hls] instance of hls.js *)

Record Hls : Type := mkHls {
  hls_media : bool;            (* attachMedia has been called *)
  hls_url : option string      (* the source given to loadSource *)
}.

Definition Hls_new : Hls := mkHls false None.
Definition Hls_attachMedia (h : Hls) : Hls := mkHls true (hls_url h).
Definition Hls_loadSource (s : string) (h : Hls) : Hls :=
  mkHls (hls_media h) (Some s).

(** What the engine does to the sink it is attached to is up to hls.js, so
    it is left open: any two functions will do. *)
Record EngineModel : Type := mkEngine {
  attach_effect : Sink -> Sink;
  load_effect : string -> Sink -> Sink
}.

(** ** Constants of the module *)

Definition HLS_MIME_TYPE : string := "application/vnd.apple.mpegurl".

(** [MediaError] codes, as the HTML standard numbers them. *)
Definition MEDIA_ERR_ABORTED : nat := 1.
Definition MEDIA_ERR_NETWORK : nat := 2.
Definition MEDIA_ERR_DECODE : nat := 3.
Definition MEDIA_ERR_SRC_NOT_SUPPORTED : nat := 4.

Definition unsupportedErrorCodes : list nat :=
  [MEDIA_ERR_SRC_NOT_SUPPORTED; MEDIA_ERR_DECODE].

(** [Array.prototype.includes] on numbers. *)
Definition includes (l : list nat) (x : nat) : bool :=
  existsb (Nat.eqb x) l.

(** ** What the component is given: device class, engine support, props *)

Inductive UploadResult : Type :=
| ReturnsUndefined                 (* the callback returns no promise *)
| Resolves (status : Z)            (* the promise resolves with a response *)
| Rejects.                         (* the promise rejects: transport failure *)

Record Env : Type := mkEnv {
  isAndroid : bool;
  isDesktop : bool;
  isMobile : bool;
  Hls_isSupported : bool;
  onUploadFrame_prop : option (Q -> UploadResult)
}.

Definition USE_NATIVE_HLS (env : Env) : bool := negb (isAndroid env).

(** ** Observable effects *)

Inductive Op : Type :=
| OpSetSrc (s : string)
| OpLoad
| OpHlsNew
| OpAttachMedia
| OpLoadSource (s : string)
| OpSetPlaybackRate (r : Q)
| OpSetCurrentTime (t : Q)
| OpPlay
| OpPause.

Inductive ToastLevel : Type := ToastSuccess | ToastError.

Record Toast : Type := mkToast {
  toast_level : ToastLevel;
  toast_message : string;
  toast_position : string
}.

Record Timer : Type := mkTimer {
  timer_id : nat;
  timer_delay : nat     (* milliseconds *)
}.

(** ** The component's data *)

Inductive PlaybackMode : Type := NativeDirect | CompatibilityEngine.

Record Playback : Type := mkPlayback {
  video : option Sink;          (* videoRef.current *)
  hlsRef : option Hls;          (* hlsRef.current *)
  useHlsCompat : bool;
  loadedMetadata : bool;
  ops : list Op                 (* calls made on the sink and the engine *)
}.

Record Controls : Type := mkControls {
  isPlaying : bool;
  mobileCtrlTimeout : option nat;
  controls : bool;
  controlsOpen : bool;
  listener : option bool;       (* the mousemove callback and the
                                   [controlsOpen] it closed over *)
  timers : list Timer;          (* pending setTimeout callbacks *)
  nextTimerId : nat
}.

Record Widget : Type := mkWidget {
  currentSource : string;       (* prop *)
  visible : bool;               (* prop *)
  playback : Playback;
  ctl : Controls;
  toasts : list Toast
}.

Definition mode (w : Widget) : PlaybackMode :=
  if useHlsCompat (playback w) then CompatibilityEngine else NativeDirect.

Definition with_playback (p : Playback) (w : Widget) : Widget :=
  mkWidget (currentSource w) (visible w) p (ctl w) (toasts w).

Definition with_ctl (c : Controls) (w : Widget) : Widget :=
  mkWidget (currentSource w) (visible w) (playback w) c (toasts w).

Definition with_video (v : Sink) (o : list Op) (p : Playback) : Playback :=
  mkPlayback (Some v) (hlsRef p) (useHlsCompat p) (loadedMetadata p)
             (ops p ++ o).

Definition setUseHlsCompat (b : bool) (p : Playback) : Playback :=
  mkPlayback (video p) (hlsRef p) b (loadedMetadata p) (ops p).

Definition setLoadedMetadata (b : bool) (p : Playback) : Playback :=
  mkPlayback (video p) (hlsRef p) (useHlsCompat p) b (ops p).

Definition setIsPlaying (b : bool) (c : Controls) : Controls :=
  mkControls b (mobileCtrlTimeout c) (controls c) (controlsOpen c)
             (listener c) (timers c) (nextTimerId c).

Definition setControls (b : bool) (c : Controls) : Controls :=
  mkControls (isPlaying c) (mobileCtrlTimeout c) b (controlsOpen c)
             (listener c) (timers c) (nextTimerId c).

Definition setControlsOpen (b : bool) (c : Controls) : Controls :=
  mkControls (isPlaying c) (mobileCtrlTimeout c) (controls c) b
             (listener c) (timers c) (nextTimerId c).

Definition setListener (l : option bool) (c : Controls) : Controls :=
  mkControls (isPlaying c) (mobileCtrlTimeout c) (controls c) (controlsOpen c)
             l (timers c) (nextTimerId c).

(** [setMobileCtrlTimeout(setTimeout(cb, delay))]: the new timer gets a fresh
    id, joins the pending ones, and its id is stored in the state cell. *)
Definition armMobileCtrlTimeout (delay : nat) (c : Controls) : Controls :=
  mkControls (isPlaying c) (Some (nextTimerId c)) (controls c) (controlsOpen c)
             (listener c)
             (timers c ++ [mkTimer (nextTimerId c) delay])
             (S (nextTimerId c)).

(** [clearTimeout(id)] *)
Definition clearTimeout (id : nat) (c : Controls) : Controls :=
  mkControls (isPlaying c) (mobileCtrlTimeout c) (controls c) (controlsOpen c)
             (listener c)
             (filter (fun t => negb (Nat.eqb (timer_id t) id)) (timers c))
             (nextTimerId c).

Definition pending (id : nat) (c : Controls) : bool :=
  existsb (fun t => Nat.eqb (timer_id t) id) (timers c).

(** What the sink shows, when there is one. *)
Definition playbackRateOf (w : Widget) : option Q :=
  option_map playbackRate (video (playback w)).
Definition currentTimeOf (w : Widget) : option Q :=
  option_map currentTime (video (playback w)).
Definition pausedOf (w : Widget) : option bool :=
  option_map paused (video (playback w)).

(** ** Sample collaborators *)

(** A sink at rest that answers "maybe" to every capability probe. *)
Definition sample_sink : Sink :=
  mkSink "" 1 1 0 true (fun _ => "maybe") (DOMRect.mk 0 640 0 360).

(** An engine that reloads the sink, and so resets its rate, both when it is
    attached and when it loads a source. *)
Definition reloading_engine : EngineModel :=
  mkEngine sink_load (fun _ => sink_load).

Definition desktop_env : Env := mkEnv false true false true None.
Definition android_env : Env := mkEnv true false true true None.
Definition android_without_hls_env : Env := mkEnv true false true false None.
Definition mobile_env : Env := mkEnv false false true true None.
Definition uploading_env (upload : Q -> UploadResult) : Env :=
  mkEnv false true false true (Some upload).

Section Player.

Variable engine : EngineModel.
Variable env : Env.

(** ** Effects *)

(** The first [useEffect]: the initial choice of mode. *)
Definition detectEffect (p : Playback) : Playback :=
  match video p with
  | None => p
  | Some v =>
      if USE_NATIVE_HLS env && truthy_string (canPlayType v HLS_MIME_TYPE)
      then p
      else if Hls_isSupported env then setUseHlsCompat true p
      else p
  end.

(** The second [useEffect], run with the [useHlsCompat] and [currentSource]
    of the render it belongs to. *)
Definition sourceEffect (compat : bool) (source : string) (p : Playback)
  : Playback :=
  match video p with
  | None => p
  | Some v =>
      let currentPlaybackRate := playbackRate v in
      if negb compat then
        with_video (sink_load (sink_set_src source v))
                   [OpSetSrc source; OpLoad] p
      else
        let '(h, v1, o1) :=
          match hlsRef p with
          | None => (Hls_attachMedia Hls_new, attach_effect engine v,
                     [OpHlsNew; OpAttachMedia])
          | Some h => (h, v, [])
          end in
        let h2 := Hls_loadSource source h in
        let v2 := load_effect engine source v1 in
        let v3 := sink_set_playbackRate currentPlaybackRate v2 in
        mkPlayback (Some v3) (Some h2) (useHlsCompat p) (loadedMetadata p)
                   (ops p ++ o1 ++ [OpLoadSource source;
                                    OpSetPlaybackRate currentPlaybackRate])
  end.

(** The third [useEffect]: off desktop nothing is registered; on desktop the
    callback closes over the [controlsOpen] of its render. *)
Definition listenerEffect (open : bool) : option bool :=
  if negb (isDesktop env) then None else Some open.

(** A re-render after the state went from [prev] to [next]: the effects whose
    dependencies changed run again, on the values of the new render. *)
Definition commit (prev next : Widget) : Widget :=
  let p :=
    if Bool.eqb (useHlsCompat (playback prev)) (useHlsCompat (playback next))
       && String.eqb (currentSource prev) (currentSource next)
    then playback next
    else sourceEffect (useHlsCompat (playback next)) (currentSource next)
                      (playback next) in
  let c :=
    if Bool.eqb (controlsOpen (ctl prev)) (controlsOpen (ctl next))
    then ctl next
    else setListener (listenerEffect (controlsOpen (ctl next))) (ctl next) in
  with_ctl c (with_playback p next).

(** The first render: the initial values of the [useState] cells. *)
Definition initial (v : option Sink) (source : string) (vis : bool) : Widget :=
  mkWidget source vis
           (mkPlayback v None false false [])
           (mkControls true None (isMobile env) false None [] 1)
           [].

(** Mounting: all three effects run on the first render's values, then the
    state they set is rendered. *)
Definition mount (v : option Sink) (source : string) (vis : bool) : Widget :=
  let w0 := initial v source vis in
  let p1 := detectEffect (playback w0) in
  let p2 := sourceEffect (useHlsCompat (playback w0)) (currentSource w0) p1 in
  let c1 := setListener (listenerEffect (controlsOpen (ctl w0))) (ctl w0) in
  commit w0 (with_ctl c1 (with_playback p2 w0)).

(** ** Callbacks *)

(** [onError] of the video element; [code] is [e.target.error.code]. *)
Definition onError (code : nat) (w : Widget) : Widget :=
  let p := playback w in
  if negb (is_set (hlsRef p))
     && includes unsupportedErrorCodes code
     && is_set (video p)
  then with_playback (setUseHlsCompat true (setLoadedMetadata false p)) w
  else w.

(** [onLoadedMetadata]: [handleLoadedMetadata] sets the flag (the resolution
    and the volume it also pushes go to collaborators left out here). *)
Definition onLoadedMetadata (w : Widget) : Widget :=
  with_playback (setLoadedMetadata true (playback w)) w.

(** [onPlay] of the video element. *)
Definition onPlay (w : Widget) : Widget :=
  let c := setIsPlaying true (ctl w) in
  if isMobile env
  then with_ctl (armMobileCtrlTimeout 4000 (setControls true c)) w
  else with_ctl c w.

(** [onPause] of the video element. *)
Definition onPause (w : Widget) : Widget :=
  let c := setIsPlaying false (ctl w) in
  if isMobile env then
    match mobileCtrlTimeout (ctl w) with
    | Some id => with_ctl (clearTimeout id c) w
    | None => with_ctl c w
    end
  else with_ctl c w.

(** The callback given to [setTimeout]: [() => setControls(false)].  A timer
    that is no longer pending does not run. *)
Definition timerFires (id : nat) (w : Widget) : Widget :=
  if pending id (ctl w)
  then with_ctl (setControls false (clearTimeout id (ctl w))) w
  else w.

(** Is the point strictly inside the rectangle? *)
Definition inside (r : DOMRect.t) (x y : Q) : bool :=
  Qltb (DOMRect.left r) x && Qltb x (DOMRect.right r)
  && Qltb (DOMRect.top r) y && Qltb y (DOMRect.bottom r).

(** The [mousemove] callback, when one is registered. *)
Definition onMouseMove (clientX clientY : Q) (w : Widget) : Widget :=
  match listener (ctl w) with
  | None => w
  | Some open =>
      match video (playback w) with
      | None => w
      | Some v =>
          if inside (getBoundingClientRect v) clientX clientY
          then with_ctl (setControls true (ctl w)) w
          else with_ctl (setControls open (ctl w)) w
      end
  end.

(** [onClick] of the wrapper. *)
Definition onClick (w : Widget) : Widget :=
  if isDesktop env then w
  else with_ctl (setControls (negb (controls (ctl w))) (ctl w)) w.

(** The [show] prop handed to [VideoControls]. *)
Definition show (w : Widget) : bool :=
  visible w && (controls (ctl w) || controlsOpen (ctl w)).

(** [onPlayPause] *)
Definition onPlayPause (play : bool) (w : Widget) : Widget :=
  match video (playback w) with
  | None => w
  | Some v =>
      if play
      then with_playback (with_video (sink_set_paused false v) [OpPlay]
                                     (playback w)) w
      else with_playback (with_video (sink_set_paused true v) [OpPause]
                                     (playback w)) w
  end.

(** [onSeek] *)
Definition onSeek (diff : Q) (w : Widget) : Widget :=
  match video (playback w) with
  | None => w
  | Some v =>
      let t := currentTime v in
      if falsy_number t then w
      else
        let t' := Qmax 0 (t + diff) in
        with_playback (with_video (sink_set_currentTime t' v)
                                  [OpSetCurrentTime t'] (playback w)) w
  end.

(** [onSetPlaybackRate] *)
Definition onSetPlaybackRate (rate : Q) (w : Widget) : Widget :=
  match video (playback w) with
  | None => w
  | Some v =>
      with_playback (with_video (sink_set_playbackRate rate v)
                                [OpSetPlaybackRate rate] (playback w)) w
  end.

Definition toast_success (msg : string) (w : Widget) : Widget :=
  mkWidget (currentSource w) (visible w) (playback w) (ctl w)
           (toasts w ++ [mkToast ToastSuccess msg "top-center"]).

Definition msg_submitted : string := "Successfully submitted frame to Frigate+".
Definition msg_failed : string := "Failed to submit frame to Frigate+".

(** How the promise of an async callback settles. *)
Inductive Completion : Type := Fulfilled | Rejected.

(** [onUploadFrame], from the call to the settling of its promise.  A
    rejected [await] leaves the function at once: nothing after it runs. *)
Definition onUploadFrame (w : Widget) : Widget * Completion :=
  match video (playback w), onUploadFrame_prop env with
  | Some v, Some upload =>
      match upload (currentTime v) with
      | Rejects => (w, Rejected)
      | Resolves status =>
          if Z.eqb status 200
          then (toast_success msg_submitted w, Fulfilled)
          else (toast_success msg_failed w, Fulfilled)
      | ReturnsUndefined => (toast_success msg_failed w, Fulfilled)
      end
  | _, _ => (w, Fulfilled)
  end.

(** ** Events *)

Inductive Event : Type :=
| SetSource (source : string)      (* the parent passes another source *)
| SetVisible (b : bool)            (* the parent shows or hides the widget *)
| VideoError (code : nat)
| VideoLoadedMetadata
| VideoPlay
| VideoPause
| VideoTime (t : Q)                (* playback moves the current time *)
| TimerFires (id : nat)
| MouseMove (clientX clientY : Q)
| Click
| ControlsOpen (b : bool)          (* VideoControls calls setControlsOpen *)
| PlayPause (play : bool)
| Seek (diff : Q)
| SetPlaybackRate (rate : Q)
| UploadFrame.

Definition setSource (source : string) (w : Widget) : Widget :=
  mkWidget source (visible w) (playback w) (ctl w) (toasts w).

Definition setVisible (b : bool) (w : Widget) : Widget :=
  mkWidget (currentSource w) b (playback w) (ctl w) (toasts w).

Definition videoTime (t : Q) (w : Widget) : Widget :=
  match video (playback w) with
  | None => w
  | Some v => with_playback (with_video (sink_set_currentTime t v) []
                                        (playback w)) w
  end.

Definition handle (e : Event) (w : Widget) : Widget :=
  match e with
  | SetSource s => setSource s w
  | SetVisible b => setVisible b w
  | VideoError code => onError code w
  | VideoLoadedMetadata => onLoadedMetadata w
  | VideoPlay => onPlay w
  | VideoPause => onPause w
  | VideoTime t => videoTime t w
  | TimerFires id => timerFires id w
  | MouseMove x y => onMouseMove x y w
  | Click => onClick w
  | ControlsOpen b => with_ctl (setControlsOpen b (ctl w)) w
  | PlayPause play => onPlayPause play w
  | Seek diff => onSeek diff w
  | SetPlaybackRate rate => onSetPlaybackRate rate w
  | UploadFrame => fst (onUploadFrame w)
  end.

(** One event: its callback, then the re-render. *)
Definition step (e : Event) (w : Widget) : Widget :=
  commit w (handle e w).

Definition run (es : list Event) (w : Widget) : Widget :=
  fold_left (fun w e => step e w) es w.

(** The states a mounted widget can be in. *)
Definition reachable (w : Widget) : Prop :=
  exists v source vis es, w = run es (mount (Some v) source vis).

(** How often the engine was constructed, and attached. *)
Definition is_OpHlsNew (o : Op) : bool :=
  match o with OpHlsNew => true | _ => false end.
Definition is_OpAttachMedia (o : Op) : bool :=
  match o with OpAttachMedia => true | _ => false end.
Definition count (f : Op -> bool) (l : list Op) : nat :=
  List.length (filter f l).

(** ** Further observers *)

Definition is_OpSetSrc (o : Op) : bool :=
  match o with OpSetSrc _ => true | _ => false end.
Definition is_OpLoad (o : Op) : bool :=
  match o with OpLoad => true | _ => false end.

(** The events on which [onError] passes its test on the code. *)
Definition unsupported_error (e : Event) : bool :=
  match e with
  | VideoError code => includes unsupportedErrorCodes code
  | _ => false
  end.

(** The events whose callback returns at once when [videoRef.current] is
    not set. *)
Definition guarded_by_sink (e : Event) : bool :=
  match e with
  | VideoError _ | MouseMove _ _ | PlayPause _ | Seek _ | SetPlaybackRate _
  | UploadFrame => true
  | _ => false
  end.

(** The commands [VideoControls] sends to the sink. *)
Definition transport_command (e : Event) : bool :=
  match e with
  | PlayPause _ | Seek _ | SetPlaybackRate _ => true
  | _ => false
  end.

(** The two toasts the module can emit. *)
Definition emitted_toast (t : Toast) : Prop :=
  toast_level t = ToastSuccess
  /\ toast_position t = "top-center"
  /\ (toast_message t = msg_submitted \/ toast_message t = msg_failed).

(** A pending timer of a widget whose next timer id is [next]. *)
Definition hide_timer (next : nat) (t : Timer) : Prop :=
  timer_delay t = 4000%nat /\ (timer_id t < next)%nat.

(** The timers of a widget are hide timers with ids of their own, and the
    state cell holds an id that has been handed out. *)
Definition TInv (c : Controls) : Prop :=
  Forall (hide_timer (nextTimerId c)) (timers c)
  /\ NoDup (map timer_id (timers c))
  /\ (forall id, mobileCtrlTimeout c = Some id -> (id < nextTimerId c)%nat).

(** ** Invariants of a mounted widget *)

(** The engine is constructed and attached together, once, when [hlsRef] is
    first filled, and [hlsRef] is filled as soon as the mode is
    [CompatibilityEngine]; the registered mousemove callback always closes
    over the current [controlsOpen]. *)
Definition Inv (w : Widget) : Prop :=
  is_set (video (playback w)) = true
  /\ (useHlsCompat (playback w) = true -> is_set (hlsRef (playback w)) = true)
  /\ count is_OpHlsNew (ops (playback w))
      = (if is_set (hlsRef (playback w)) then 1 else 0)%nat
  /\ count is_OpAttachMedia (ops (playback w))
      = (if is_set (hlsRef (playback w)) then 1 else 0)%nat
  /\ listener (ctl w) = listenerEffect (controlsOpen (ctl w)).

(** The part of [Inv] that speaks of the playback data. *)
Definition PInv (p : Playback) : Prop :=
  is_set (video p) = true
  /\ count is_OpHlsNew (ops p) = (if is_set (hlsRef p) then 1 else 0)%nat
  /\ count is_OpAttachMedia (ops p) = (if is_set (hlsRef p) then 1 else 0)%nat.

(** Proof steps shared by the lemmas on callbacks. *)
Ltac unfold_handlers :=
  unfold handle, setSource, setVisible, onError, onLoadedMetadata, onPlay,
    onPause, videoTime, timerFires, onMouseMove, onClick, onPlayPause, onSeek,
    onSetPlaybackRate, onUploadFrame, toast_success.

Ltac split_ifs :=
  repeat match goal with
         | |- context [match ?x with _ => _ end] => destruct x eqn:?; simpl
         end.

(** * Properties *)

Lemma widget_eta (w : Widget) :
  mkWidget (currentSource w) (visible w) (playback w) (ctl w) (toasts w) = w.
Proof. destruct w; reflexivity. Qed.

Lemma commit_same (w : Widget) : commit w w = w.
Proof.
  unfold commit.
  rewrite !Bool.eqb_reflx, String.eqb_refl; simpl.
  unfold with_ctl, with_playback; simpl. apply widget_eta.
Qed.

Lemma count_app (f : Op -> bool) (l l' : list Op) :
  count f (l ++ l') = (count f l + count f l')%nat.
Proof. unfold count. rewrite filter_app, length_app. reflexivity. Qed.

Lemma run_app (es es' : list Event) (w : Widget) :
  run (es ++ es') w = run es' (run es w).
Proof. unfold run. apply fold_left_app. Qed.

Lemma run_snoc (es : list Event) (e : Event) (w : Widget) :
  run (es ++ [e]) w = step e (run es w).
Proof. rewrite run_app. reflexivity. Qed.

(** *** The source effect *)

Lemma sourceEffect_native (source : string) (p : Playback) (v : Sink) :
  video p = Some v ->
  sourceEffect false source p
  = with_video (sink_load (sink_set_src source v)) [OpSetSrc source; OpLoad] p.
Proof. intros Hv. unfold sourceEffect. rewrite Hv. reflexivity. Qed.

Lemma sourceEffect_compat_attached (source : string) (p : Playback)
      (v : Sink) (h : Hls) :
  video p = Some v -> hlsRef p = Some h ->
  sourceEffect true source p
  = mkPlayback
      (Some (sink_set_playbackRate (playbackRate v)
                                   (load_effect engine source v)))
      (Some (Hls_loadSource source h)) (useHlsCompat p) (loadedMetadata p)
      (ops p ++ [OpLoadSource source; OpSetPlaybackRate (playbackRate v)]).
Proof. intros Hv Hh. unfold sourceEffect. rewrite Hv, Hh. reflexivity. Qed.

Lemma sourceEffect_compat_first (source : string) (p : Playback) (v : Sink) :
  video p = Some v -> hlsRef p = None ->
  sourceEffect true source p
  = mkPlayback
      (Some (sink_set_playbackRate (playbackRate v)
               (load_effect engine source (attach_effect engine v))))
      (Some (Hls_loadSource source (Hls_attachMedia Hls_new)))
      (useHlsCompat p) (loadedMetadata p)
      (ops p ++ [OpHlsNew; OpAttachMedia; OpLoadSource source;
                 OpSetPlaybackRate (playbackRate v)]).
Proof. intros Hv Hh. unfold sourceEffect. rewrite Hv, Hh. reflexivity. Qed.

Lemma sourceEffect_mode (b : bool) (source : string) (p : Playback) :
  useHlsCompat (sourceEffect b source p) = useHlsCompat p.
Proof.
  unfold sourceEffect.
  destruct (video p); [|reflexivity].
  destruct b; simpl; [|reflexivity].
  destruct (hlsRef p); reflexivity.
Qed.

Lemma sourceEffect_loadedMetadata (b : bool) (source : string) (p : Playback) :
  loadedMetadata (sourceEffect b source p) = loadedMetadata p.
Proof.
  unfold sourceEffect.
  destruct (video p); [|reflexivity].
  destruct b; simpl; [|reflexivity].
  destruct (hlsRef p); reflexivity.
Qed.

Lemma sourceEffect_PInv (b : bool) (source : string) (p : Playback) :
  PInv p -> PInv (sourceEffect b source p).
Proof.
  intros (Hv & Hn & Ha). unfold PInv.
  destruct (video p) as [v|] eqn:Ev; [|discriminate].
  destruct b.
  - destruct (hlsRef p) as [h|] eqn:Eh.
    + rewrite (sourceEffect_compat_attached source p v h Ev Eh); simpl.
      rewrite !count_app, Hn, Ha. simpl. auto.
    + rewrite (sourceEffect_compat_first source p v Ev Eh); simpl.
      rewrite !count_app, Hn, Ha. simpl. auto.
  - rewrite (sourceEffect_native source p v Ev); simpl.
    rewrite !count_app, Hn, Ha. simpl.
    destruct (is_set (hlsRef p)); auto.
Qed.

Lemma sourceEffect_compat_engine (source : string) (p : Playback) :
  is_set (video p) = true ->
  is_set (hlsRef (sourceEffect true source p)) = true.
Proof.
  intros Hv. unfold sourceEffect.
  destruct (video p); [|discriminate]. simpl.
  destruct (hlsRef p); reflexivity.
Qed.

Lemma sourceEffect_keeps_engine (b : bool) (source : string) (p : Playback) :
  is_set (hlsRef p) = true ->
  is_set (hlsRef (sourceEffect b source p)) = true.
Proof.
  intros Hh. unfold sourceEffect.
  destruct (video p); [|exact Hh].
  destruct b; simpl; [|exact Hh].
  destruct (hlsRef p); reflexivity.
Qed.

(** *** What a callback alone can change *)

Lemma handle_hlsRef (e : Event) (w : Widget) :
  hlsRef (playback (handle e w)) = hlsRef (playback w).
Proof. destruct e; unfold_handlers; simpl; split_ifs; congruence. Qed.

Lemma handle_video_set (e : Event) (w : Widget) :
  is_set (video (playback (handle e w))) = is_set (video (playback w)).
Proof.
  destruct e; unfold_handlers; simpl; split_ifs; simpl;
    try reflexivity;
    match goal with H : video _ = _ |- _ => rewrite H; reflexivity end.
Qed.

Lemma handle_engine_ops (e : Event) (w : Widget) :
  count is_OpHlsNew (ops (playback (handle e w)))
  = count is_OpHlsNew (ops (playback w))
  /\ count is_OpAttachMedia (ops (playback (handle e w)))
     = count is_OpAttachMedia (ops (playback w)).
Proof.
  destruct e; unfold_handlers; simpl; split_ifs; simpl;
    rewrite ?count_app; simpl; rewrite ?Nat.add_0_r; auto.
Qed.

Lemma handle_listener (e : Event) (w : Widget) :
  listener (ctl (handle e w)) = listener (ctl w).
Proof. destruct e; unfold_handlers; simpl; split_ifs; congruence. Qed.

Lemma handle_controlsOpen (e : Event) (w : Widget) :
  controlsOpen (ctl (handle e w))
  = match e with ControlsOpen b => b | _ => controlsOpen (ctl w) end.
Proof. destruct e; unfold_handlers; simpl; split_ifs; congruence. Qed.

(** Only the error callback writes the mode, and only to switch the
    compatibility engine on. *)
Lemma handle_mode (e : Event) (w : Widget) :
  useHlsCompat (playback (handle e w)) = useHlsCompat (playback w)
  \/ (exists code, e = VideoError code
                   /\ includes unsupportedErrorCodes code = true
                   /\ hlsRef (playback w) = None
                   /\ useHlsCompat (playback (handle e w)) = true
                   /\ loadedMetadata (playback (handle e w)) = false).
Proof.
  destruct e; try (left; unfold_handlers; simpl; split_ifs; reflexivity).
  unfold handle, onError.
  destruct (negb (is_set (hlsRef (playback w)))
            && includes unsupportedErrorCodes code
            && is_set (video (playback w))) eqn:E; [|left; reflexivity].
  apply andb_prop in E as [E _]. apply andb_prop in E as [Eh Ei].
  right. exists code. repeat split; auto.
  destruct (hlsRef (playback w)); [discriminate|reflexivity].
Qed.

(** *** What the re-render adds *)

Lemma commit_playback (prev next : Widget) :
  playback (commit prev next) = playback next
  \/ playback (commit prev next)
     = sourceEffect (useHlsCompat (playback next)) (currentSource next)
                    (playback next).
Proof.
  unfold commit; simpl.
  destruct (_ && _); auto.
Qed.

Lemma commit_mode (prev next : Widget) :
  useHlsCompat (playback (commit prev next)) = useHlsCompat (playback next).
Proof.
  destruct (commit_playback prev next) as [-> | ->];
    [reflexivity | apply sourceEffect_mode].
Qed.

Lemma commit_loadedMetadata (prev next : Widget) :
  loadedMetadata (playback (commit prev next)) = loadedMetadata (playback next).
Proof.
  destruct (commit_playback prev next) as [-> | ->];
    [reflexivity | apply sourceEffect_loadedMetadata].
Qed.

Lemma commit_mode_changed (prev next : Widget) :
  useHlsCompat (playback prev) <> useHlsCompat (playback next) ->
  playback (commit prev next)
  = sourceEffect (useHlsCompat (playback next)) (currentSource next)
                 (playback next).
Proof.
  intros Hne. unfold commit; simpl.
  destruct (Bool.eqb _ _) eqn:E; [|reflexivity].
  apply Bool.eqb_prop in E. contradiction.
Qed.

Lemma commit_listener (prev next : Widget) :
  listener (ctl prev) = listenerEffect (controlsOpen (ctl prev)) ->
  listener (ctl next) = listener (ctl prev) ->
  listener (ctl (commit prev next)) = listenerEffect (controlsOpen (ctl next)).
Proof.
  intros Hl Hk. unfold commit; simpl.
  destruct (Bool.eqb _ _) eqn:E; simpl; [|reflexivity].
  apply Bool.eqb_prop in E. rewrite Hk, Hl, E. reflexivity.
Qed.

Lemma commit_controlsOpen (prev next : Widget) :
  controlsOpen (ctl (commit prev next)) = controlsOpen (ctl next).
Proof. unfold commit; simpl. destruct (Bool.eqb _ _); reflexivity. Qed.

(** *** The invariant holds from mounting on *)

Lemma Inv_PInv (w : Widget) : Inv w -> PInv (playback w).
Proof. intros (Hv & _ & Hn & Ha & _). repeat split; assumption. Qed.

Lemma handle_PInv (e : Event) (w : Widget) :
  PInv (playback w) -> PInv (playback (handle e w)).
Proof.
  intros (Hv & Hn & Ha).
  destruct (handle_engine_ops e w) as [En Ea].
  unfold PInv. rewrite handle_video_set, handle_hlsRef, En, Ea. auto.
Qed.

Lemma commit_PInv (prev next : Widget) :
  PInv (playback next) -> PInv (playback (commit prev next)).
Proof.
  intros H. destruct (commit_playback prev next) as [-> | ->];
    [exact H | apply sourceEffect_PInv, H].
Qed.

Lemma step_Inv (e : Event) (w : Widget) : Inv w -> Inv (step e w).
Proof.
  intros HI. pose proof (Inv_PInv w HI) as HP.
  destruct HI as (Hv & Hc & _ & _ & Hl).
  pose proof (commit_PInv w (handle e w) (handle_PInv e w HP)) as (Pv & Pn & Pa).
  unfold step. repeat split; try assumption.
  - rewrite commit_mode. intros Hm.
    destruct (handle_mode e w) as [Esame | (code & _ & _ & Hnone & _ & _)].
    + rewrite Esame in Hm. specialize (Hc Hm).
      rewrite <- (handle_hlsRef e w) in Hc.
      destruct (commit_playback w (handle e w)) as [-> | ->];
        [exact Hc | apply sourceEffect_keeps_engine, Hc].
    + assert (Hold : useHlsCompat (playback w) = false).
      { destruct (useHlsCompat (playback w)); [|reflexivity].
        specialize (Hc eq_refl). rewrite Hnone in Hc. discriminate. }
      rewrite commit_mode_changed by (rewrite Hold, Hm; discriminate).
      rewrite Hm. apply sourceEffect_compat_engine.
      rewrite handle_video_set. exact Hv.
  - rewrite commit_controlsOpen.
    apply commit_listener; [exact Hl | apply handle_listener].
Qed.

Lemma run_Inv (es : list Event) (w : Widget) : Inv w -> Inv (run es w).
Proof.
  revert w. induction es as [|e es IH]; intros w HI; simpl.
  - exact HI.
  - apply IH, step_Inv, HI.
Qed.

Lemma initial_Inv (v : Sink) (source : string) (vis : bool) :
  PInv (playback (initial (Some v) source vis)).
Proof. repeat split. Qed.

Lemma detectEffect_PInv (p : Playback) : PInv p -> PInv (detectEffect p).
Proof.
  intros H. unfold detectEffect.
  destruct (video p); [|exact H].
  destruct (_ && _); [exact H|].
  destruct (Hls_isSupported env); exact H.
Qed.

Lemma detectEffect_hlsRef (p : Playback) :
  hlsRef (detectEffect p) = hlsRef p.
Proof.
  unfold detectEffect.
  destruct (video p); [|reflexivity].
  destruct (_ && _); [reflexivity|].
  destruct (Hls_isSupported env); reflexivity.
Qed.

Lemma mount_Inv (v : Sink) (source : string) (vis : bool) :
  Inv (mount (Some v) source vis).
Proof.
  unfold mount.
  set (w0 := initial (Some v) source vis).
  set (p1 := detectEffect (playback w0)).
  set (p2 := sourceEffect (useHlsCompat (playback w0)) (currentSource w0) p1).
  set (n := with_ctl _ (with_playback p2 w0)).
  assert (HP2 : PInv p2).
  { apply sourceEffect_PInv, detectEffect_PInv, initial_Inv. }
  pose proof (commit_PInv w0 n HP2) as (Pv & Pn & Pa).
  repeat split; try assumption.
  - rewrite commit_mode. intros Hm.
    rewrite commit_mode_changed by (rewrite Hm; discriminate).
    rewrite Hm. apply sourceEffect_compat_engine, HP2.
Qed.

Lemma reachable_Inv (w : Widget) : reachable w -> Inv w.
Proof.
  intros (v & source & vis & es & ->). apply run_Inv, mount_Inv.
Qed.

Lemma reachable_step (e : Event) (w : Widget) :
  reachable w -> reachable (step e w).
Proof.
  intros (v & source & vis & es & ->).
  exists v, source, vis, (es ++ [e])%list. symmetry. apply run_snoc.
Qed.

Lemma reachable_run (es : list Event) (w : Widget) :
  reachable w -> reachable (run es w).
Proof.
  revert w. induction es as [|e es IH]; intros w Hr; simpl.
  - exact Hr.
  - apply IH, reachable_step, Hr.
Qed.

(** ** The playback mode *)

Lemma step_mode (e : Event) (w : Widget) :
  useHlsCompat (playback (step e w)) = useHlsCompat (playback w)
  \/ (exists code, e = VideoError code
                   /\ includes unsupportedErrorCodes code = true
                   /\ useHlsCompat (playback (step e w)) = true).
Proof.
  unfold step. rewrite commit_mode.
  destruct (handle_mode e w) as [H | (code & -> & Hi & _ & Ht & _)];
    [left; exact H | right; exists code; auto].
Qed.

Lemma step_keeps_compat (e : Event) (w : Widget) :
  useHlsCompat (playback w) = true ->
  useHlsCompat (playback (step e w)) = true.
Proof.
  intros H. destruct (step_mode e w) as [-> | (_ & _ & _ & Ht)]; assumption.
Qed.

Lemma run_keeps_compat (es : list Event) (w : Widget) :
  useHlsCompat (playback w) = true ->
  useHlsCompat (playback (run es w)) = true.
Proof.
  revert w. induction es as [|e es IH]; intros w H; simpl.
  - exact H.
  - apply IH, step_keeps_compat, H.
Qed.

Lemma mode_compat (w : Widget) :
  mode w = CompatibilityEngine <-> useHlsCompat (playback w) = true.
Proof. unfold mode. destruct (useHlsCompat (playback w)); split; congruence. Qed.

Lemma mode_native (w : Widget) :
  mode w = NativeDirect <-> useHlsCompat (playback w) = false.
Proof. unfold mode. destruct (useHlsCompat (playback w)); split; congruence. Qed.

(** With an engine in [hlsRef] the error callback returns at its guard, and
    the re-render that follows has nothing to do. *)
Lemma error_with_engine (code : nat) (w : Widget) :
  is_set (hlsRef (playback w)) = true -> step (VideoError code) w = w.
Proof.
  intros Hh. unfold step, handle, onError. rewrite Hh. simpl.
  apply commit_same.
Qed.

Lemma engine_ops_once (w : Widget) :
  Inv w -> useHlsCompat (playback w) = true ->
  count is_OpHlsNew (ops (playback w)) = 1%nat
  /\ count is_OpAttachMedia (ops (playback w)) = 1%nat.
Proof.
  intros (_ & Hc & Hn & Ha & _) Hm. rewrite Hn, Ha, (Hc Hm). auto.
Qed.

(** C1. A format-not-supported or decode error reported while no engine is
    in [hlsRef] moves a mounted widget from [NativeDirect] to
    [CompatibilityEngine], clears the metadata-loaded flag, and constructs
    and attaches the engine; whatever happens afterwards, every further
    error, with the same code or another, leaves the whole state as it is:
    the mode stays [CompatibilityEngine] and the engine has still been
    constructed and attached once. *)
Theorem fallback_exactly_once (w : Widget) (code : nat) :
  reachable w ->
  hlsRef (playback w) = None ->
  includes unsupportedErrorCodes code = true ->
  let w1 := step (VideoError code) w in
  mode w = NativeDirect
  /\ mode w1 = CompatibilityEngine
  /\ loadedMetadata (playback w1) = false
  /\ count is_OpHlsNew (ops (playback w1)) = 1%nat
  /\ count is_OpAttachMedia (ops (playback w1)) = 1%nat
  /\ forall (es : list Event) (code' : nat),
       let w2 := run es w1 in
       step (VideoError code') w2 = w2
       /\ mode w2 = CompatibilityEngine
       /\ count is_OpHlsNew (ops (playback w2)) = 1%nat
       /\ count is_OpAttachMedia (ops (playback w2)) = 1%nat.
Proof.
  intros Hr Hnone Hcode w1.
  pose proof (reachable_Inv w Hr) as HI.
  pose proof (reachable_step (VideoError code) w Hr) as Hr1. fold w1 in Hr1.
  pose proof (reachable_Inv w1 Hr1) as HI1.
  destruct HI as (Hv & Hc & _).
  assert (Hold : useHlsCompat (playback w) = false).
  { destruct (useHlsCompat (playback w)); [|reflexivity].
    specialize (Hc eq_refl). rewrite Hnone in Hc. discriminate. }
  assert (Hnew : useHlsCompat (playback w1) = true).
  { unfold w1, step. rewrite commit_mode. unfold handle, onError.
    rewrite Hnone, Hcode, Hv. reflexivity. }
  assert (Hlm : loadedMetadata (playback w1) = false).
  { unfold w1, step. rewrite commit_loadedMetadata. unfold handle, onError.
    rewrite Hnone, Hcode, Hv. reflexivity. }
  destruct (engine_ops_once w1 HI1 Hnew) as [Hn1 Ha1].
  split; [apply mode_native, Hold|].
  split; [apply mode_compat, Hnew|].
  repeat (split; [assumption|]).
  intros es code' w2.
  pose proof (run_keeps_compat es w1 Hnew) as Hm2. fold w2 in Hm2.
  pose proof (reachable_Inv w2 (reachable_run es w1 Hr1)) as HI2.
  destruct (engine_ops_once w2 HI2 Hm2) as [Hn2 Ha2].
  split; [|split; [apply mode_compat, Hm2 | split; assumption]].
  apply error_with_engine.
  destruct HI2 as (_ & Hc2 & _). exact (Hc2 Hm2).
Qed.

(** C2. The mode is one-way: once it is [CompatibilityEngine] it stays so
    through every sequence of events; a change of source never changes the
    mode, in either mode; and the only event that changes the mode at all is
    an error whose code is in the unsupported set (the other writer of the
    mode is the detection effect, which runs in [mount] only). *)
Theorem mode_one_way :
  (forall (es : list Event) (w : Widget),
      mode w = CompatibilityEngine -> mode (run es w) = CompatibilityEngine)
  /\ (forall (source : string) (w : Widget),
        mode (step (SetSource source) w) = mode w)
  /\ (forall (e : Event) (w : Widget),
        mode (step e w) <> mode w ->
        exists code, e = VideoError code
                     /\ includes unsupportedErrorCodes code = true
                     /\ mode w = NativeDirect
                     /\ mode (step e w) = CompatibilityEngine).
Proof.
  split; [|split].
  - intros es w H. apply mode_compat, run_keeps_compat, mode_compat, H.
  - intros source w. unfold mode.
    destruct (step_mode (SetSource source) w) as [-> | (code & He & _)];
      [reflexivity | discriminate].
  - intros e w Hne.
    destruct (step_mode e w) as [Heq | (code & -> & Hi & Ht)].
    + exfalso. apply Hne. unfold mode. rewrite Heq. reflexivity.
    + exists code. repeat split; auto.
      * apply mode_native.
        destruct (useHlsCompat (playback w)) eqn:E; [|reflexivity].
        exfalso. apply Hne. unfold mode. rewrite Ht, E. reflexivity.
      * apply mode_compat, Ht.
Qed.

(** C3, as the code has it.  On Android, when the sink is attached at mount
    and hls.js is supported, the mode after mounting is
    [CompatibilityEngine], whatever the sink answers to the capability
    probe. *)
Theorem android_initial_mode (v : Sink) (source : string) (vis : bool) :
  isAndroid env = true ->
  Hls_isSupported env = true ->
  mode (mount (Some v) source vis) = CompatibilityEngine.
Proof.
  intros Ha Hs. apply mode_compat.
  unfold mount. rewrite commit_mode. simpl.
  rewrite sourceEffect_mode.
  unfold detectEffect, USE_NATIVE_HLS. simpl. rewrite Ha, Hs. reflexivity.
Qed.

(** ** Source changes *)

Lemma step_SetSource_changed (source : string) (w : Widget) :
  source <> currentSource w ->
  playback (step (SetSource source) w)
  = sourceEffect (useHlsCompat (playback w)) source (playback w).
Proof.
  intros Hne. unfold step, handle, commit, setSource; simpl.
  rewrite Bool.eqb_reflx; simpl.
  destruct (String.eqb (currentSource w) source) eqn:E; [|reflexivity].
  apply String.eqb_eq in E. congruence.
Qed.

(** In [NativeDirect] a change of source assigns [src], calls [load()] and
    returns: the rate read before the reload is not written back. *)
Lemma native_source_change (source : string) (w : Widget) (v : Sink) :
  video (playback w) = Some v ->
  mode w = NativeDirect ->
  source <> currentSource w ->
  playback (step (SetSource source) w)
  = with_video (sink_load (sink_set_src source v)) [OpSetSrc source; OpLoad]
               (playback w).
Proof.
  intros Hv Hm Hne. apply mode_native in Hm.
  rewrite (step_SetSource_changed source w Hne), Hm.
  apply sourceEffect_native, Hv.
Qed.

(** C5. In [CompatibilityEngine] mode, a change of source on a mounted
    widget calls [loadSource] with the new source on the engine already in
    [hlsRef], then writes the rate read before the load back to the sink:
    whatever the engine did to the sink, its playback rate afterwards is the
    rate before the change.  No engine is constructed or attached on the
    way: both have happened once since mounting. *)
Theorem compat_source_change (w : Widget) (v : Sink) (source : string) :
  reachable w ->
  video (playback w) = Some v ->
  mode w = CompatibilityEngine ->
  source <> currentSource w ->
  let w1 := step (SetSource source) w in
  ops (playback w1)
  = (ops (playback w)
     ++ [OpLoadSource source; OpSetPlaybackRate (playbackRate v)])%list
  /\ option_map hls_url (hlsRef (playback w1)) = Some (Some source)
  /\ playbackRateOf w1 = Some (playbackRate v)
  /\ mode w1 = CompatibilityEngine
  /\ count is_OpHlsNew (ops (playback w1)) = 1%nat
  /\ count is_OpAttachMedia (ops (playback w1)) = 1%nat.
Proof.
  intros Hr Hv Hm Hne w1.
  pose proof (reachable_Inv w Hr) as HI.
  pose proof (reachable_Inv w1 (reachable_step _ w Hr)) as HI1.
  apply mode_compat in Hm.
  assert (Hm1 : useHlsCompat (playback w1) = true)
    by (apply step_keeps_compat, Hm).
  destruct (engine_ops_once w1 HI1 Hm1) as [Hn1 Ha1].
  destruct HI as (_ & Hc & _). specialize (Hc Hm).
  destruct (hlsRef (playback w)) as [h|] eqn:Eh; [|discriminate].
  assert (Hp : playback w1
               = sourceEffect true source (playback w)).
  { unfold w1. rewrite (step_SetSource_changed source w Hne), Hm.
    reflexivity. }
  rewrite (sourceEffect_compat_attached source _ v h Hv Eh) in Hp.
  unfold playbackRateOf. rewrite Hp in *. simpl.
  repeat split; try assumption.
  unfold mode. rewrite Hp. simpl. rewrite Hm. reflexivity.
Qed.

(** ** Transport commands *)

Lemma commit_quiet (prev next : Widget) :
  useHlsCompat (playback prev) = useHlsCompat (playback next) ->
  currentSource prev = currentSource next ->
  controlsOpen (ctl prev) = controlsOpen (ctl next) ->
  commit prev next = next.
Proof.
  intros Hm Hs Ho. unfold commit.
  rewrite Hm, Hs, Ho, !Bool.eqb_reflx, String.eqb_refl; simpl.
  destruct next; reflexivity.
Qed.

(** C6, as the code has it.  With the sink attached and an upload callback
    given: a response with status 200 emits the success notification; a
    response with another status, or no response, emits one notification
    that carries the failure message; a rejected promise emits none, and
    the rejection is all that is left of it.  In every case the sink, its
    playing/paused state included, and the control state are as before. *)
Theorem upload_frame_notifications
        (w : Widget) (v : Sink) (upload : Q -> UploadResult) :
  video (playback w) = Some v ->
  onUploadFrame_prop env = Some upload ->
  let w1 := step UploadFrame w in
  playback w1 = playback w
  /\ pausedOf w1 = pausedOf w
  /\ ctl w1 = ctl w
  /\ match upload (currentTime v) with
     | Resolves status =>
         if Z.eqb status 200
         then toasts w1
              = (toasts w
                 ++ [mkToast ToastSuccess msg_submitted "top-center"])%list
         else exists t, toasts w1 = (toasts w ++ [t])%list
                        /\ toast_message t = msg_failed
     | ReturnsUndefined =>
         exists t, toasts w1 = (toasts w ++ [t])%list
                   /\ toast_message t = msg_failed
     | Rejects =>
         toasts w1 = toasts w /\ snd (onUploadFrame w) = Rejected
     end.
Proof.
  intros Hv Hu w1.
  assert (Hq : w1 = fst (onUploadFrame w)).
  { unfold w1, step, handle. apply commit_quiet;
      unfold onUploadFrame; rewrite Hv, Hu;
      destruct (upload (currentTime v)) as [|status|];
      try destruct (Z.eqb status 200); reflexivity. }
  rewrite Hq. unfold pausedOf, onUploadFrame. rewrite Hv, Hu.
  destruct (upload (currentTime v)) as [|status|]; simpl;
    try destruct (Z.eqb status 200); simpl;
    repeat split; try (rewrite Hv; reflexivity);
    eexists; split; reflexivity.
Qed.


(** C10. With the current time at zero [onSeek] returns at its guard, for
    every [diff]: nothing at all changes, so the current time stays zero. *)
Theorem seek_at_zero_is_noop (diff : Q) (w : Widget) (v : Sink) :
  video (playback w) = Some v ->
  currentTime v == 0 ->
  step (Seek diff) w = w /\ currentTimeOf (step (Seek diff) w) = Some (currentTime v).
Proof.
  intros Hv Hz.
  assert (Hs : step (Seek diff) w = w).
  { unfold step, handle, onSeek. rewrite Hv. unfold falsy_number.
    rewrite (Qeq_eq_bool _ _ Hz). apply commit_same. }
  rewrite Hs. unfold currentTimeOf. rewrite Hv. auto.
Qed.

(** ** Control visibility *)

Lemma commit_show (prev next : Widget) :
  show (commit prev next) = show next.
Proof.
  unfold show, commit; simpl.
  destruct (Bool.eqb _ _); reflexivity.
Qed.

Lemma pending_clearTimeout (id : nat) (c : Controls) :
  pending id (clearTimeout id c) = false.
Proof.
  unfold pending, clearTimeout; simpl.
  induction (timers c) as [|t ts IH]; simpl; [reflexivity|].
  destruct (Nat.eqb (timer_id t) id) eqn:E; simpl; [exact IH|].
  rewrite E. exact IH.
Qed.

(** On mobile a play event shows the controls and arms one more 4000 ms
    timer, next to those already pending. *)
Lemma play_arms_timer (w : Widget) :
  isMobile env = true ->
  let id := nextTimerId (ctl w) in
  timers (ctl (step VideoPlay w)) = (timers (ctl w) ++ [mkTimer id 4000])%list
  /\ mobileCtrlTimeout (ctl (step VideoPlay w)) = Some id
  /\ controls (ctl (step VideoPlay w)) = true.
Proof.
  intros Hm id. unfold step, handle.
  rewrite commit_quiet; unfold onPlay; rewrite Hm; simpl; auto.
Qed.

(** On mobile a pause event cancels the timer whose id is in the state
    cell, that is, the one the latest play armed. *)
Lemma pause_cancels_latest (w : Widget) (id : nat) :
  isMobile env = true ->
  mobileCtrlTimeout (ctl w) = Some id ->
  pending id (ctl (step VideoPause w)) = false.
Proof.
  intros Hm Hid. unfold step, handle.
  rewrite commit_quiet; unfold onPause; rewrite Hm, Hid; simpl; auto.
  apply (pending_clearTimeout id (setIsPlaying false (ctl w))).
Qed.

(** A pending timer that fires hides the controls. *)
Lemma timer_hides (w : Widget) (id : nat) :
  pending id (ctl w) = true ->
  controls (ctl (step (TimerFires id) w)) = false.
Proof.
  intros Hp. unfold step, handle.
  rewrite commit_quiet; unfold timerFires; rewrite Hp; simpl; auto.
Qed.

(** C8, as the code has it.  On desktop, for a mounted widget with its sink
    attached: right after a pointer move the controls show iff the widget is
    visible and the pointer is strictly inside the video's bounding box or
    the pin is set; setting the pin shows them whenever the widget is
    visible; clearing the pin leaves the [controls] cell as the last pointer
    move wrote it, so the controls then show iff the widget is visible and
    that cell is true. *)
Theorem desktop_controls (w : Widget) (v : Sink) (x y : Q) :
  isDesktop env = true ->
  reachable w ->
  video (playback w) = Some v ->
  show (step (MouseMove x y) w)
  = visible w && (inside (getBoundingClientRect v) x y || controlsOpen (ctl w))
  /\ show (step (ControlsOpen true) w) = visible w
  /\ show (step (ControlsOpen false) w) = visible w && controls (ctl w).
Proof.
  intros Hd Hr Hv.
  destruct (reachable_Inv w Hr) as (_ & _ & _ & _ & Hl).
  unfold listenerEffect in Hl. rewrite Hd in Hl. simpl in Hl.
  unfold step. rewrite !commit_show. unfold show, handle, onMouseMove.
  rewrite Hl, Hv. simpl.
  split; [|split].
  - destruct (inside (getBoundingClientRect v) x y); simpl.
    + reflexivity.
    + rewrite Bool.orb_diag. reflexivity.
  - rewrite Bool.orb_true_r, Bool.andb_true_r. reflexivity.
  - rewrite Bool.orb_false_r. reflexivity.
Qed.

(** * Further properties *)

(** ** The engine and the mode *)

Lemma handle_keeps_compat (e : Event) (w : Widget) :
  useHlsCompat (playback w) = true ->
  useHlsCompat (playback (handle e w)) = true.
Proof.
  intros H. destruct (handle_mode e w) as [-> | (_ & _ & _ & _ & Ht & _)];
    assumption.
Qed.

Lemma sourceEffect_native_hlsRef (source : string) (p : Playback) :
  hlsRef (sourceEffect false source p) = hlsRef p.
Proof. unfold sourceEffect. destruct (video p); reflexivity. Qed.

Lemma step_engine_needs_compat (e : Event) (w : Widget) :
  (is_set (hlsRef (playback w)) = true -> useHlsCompat (playback w) = true) ->
  is_set (hlsRef (playback (step e w))) = true ->
  useHlsCompat (playback (step e w)) = true.
Proof.
  intros HJ Hset. unfold step in *. rewrite commit_mode.
  destruct (useHlsCompat (playback (handle e w))) eqn:Em; [reflexivity|].
  assert (Hh : is_set (hlsRef (playback w)) = true).
  { rewrite <- (handle_hlsRef e w).
    destruct (commit_playback w (handle e w)) as [Hp | Hp];
      rewrite Hp in Hset; [exact Hset|].
    rewrite Em, sourceEffect_native_hlsRef in Hset. exact Hset. }
  rewrite (handle_keeps_compat e w (HJ Hh)) in Em. discriminate.
Qed.

Lemma run_engine_needs_compat (es : list Event) (w : Widget) :
  (is_set (hlsRef (playback w)) = true -> useHlsCompat (playback w) = true) ->
  is_set (hlsRef (playback (run es w))) = true ->
  useHlsCompat (playback (run es w)) = true.
Proof.
  revert w. induction es as [|e es IH]; intros w HJ; simpl.
  - exact HJ.
  - apply IH. apply step_engine_needs_compat, HJ.
Qed.

Lemma mount_engine_needs_compat (v : option Sink) (source : string)
      (vis : bool) :
  is_set (hlsRef (playback (mount v source vis))) = true ->
  useHlsCompat (playback (mount v source vis)) = true.
Proof.
  unfold mount. set (w0 := initial v source vis).
  set (n := with_ctl _ _). intros Hset. rewrite commit_mode.
  destruct (useHlsCompat (playback n)) eqn:Em; [reflexivity|].
  destruct (commit_playback w0 n) as [Hp | Hp]; rewrite Hp in Hset.
  - unfold n in Hset; simpl in Hset.
    rewrite sourceEffect_native_hlsRef, detectEffect_hlsRef in Hset.
    discriminate.
  - rewrite Em, sourceEffect_native_hlsRef in Hset.
    unfold n in Hset; simpl in Hset.
    rewrite sourceEffect_native_hlsRef, detectEffect_hlsRef in Hset.
    discriminate.
Qed.

Lemma reachable_engine_iff (w : Widget) :
  reachable w -> is_set (hlsRef (playback w)) = useHlsCompat (playback w).
Proof.
  intros Hr. pose proof (reachable_Inv w Hr) as (_ & Hc & _).
  destruct Hr as (v & source & vis & es & ->).
  pose proof (run_engine_needs_compat es _
                (mount_engine_needs_compat (Some v) source vis)) as HJ.
  destruct (useHlsCompat (playback (run es _))) eqn:Em.
  - apply Hc. reflexivity.
  - destruct (is_set (hlsRef (playback (run es _)))); [|reflexivity].
    symmetry. apply HJ. reflexivity.
Qed.

(** X1. In a mounted widget an engine sits in [hlsRef] exactly when the mode
    is [CompatibilityEngine]. *)
Theorem engine_iff_compat (w : Widget) :
  reachable w ->
  (exists h, hlsRef (playback w) = Some h) <-> mode w = CompatibilityEngine.
Proof.
  intros Hr. pose proof (reachable_engine_iff w Hr) as H.
  rewrite mode_compat, <- H.
  destruct (hlsRef (playback w)) as [h|]; simpl; split; intros Hx;
    try reflexivity; try discriminate.
  - exists h. reflexivity.
  - destruct Hx as [h Hh]. discriminate.
Qed.

Lemma mount_useHlsCompat (v : Sink) (source : string) (vis : bool) :
  useHlsCompat (playback (mount (Some v) source vis))
  = (isAndroid env || negb (truthy_string (canPlayType v HLS_MIME_TYPE)))
    && Hls_isSupported env.
Proof.
  unfold mount. rewrite commit_mode. simpl.
  rewrite sourceEffect_mode. unfold detectEffect, USE_NATIVE_HLS. simpl.
  destruct (isAndroid env), (truthy_string (canPlayType v HLS_MIME_TYPE)),
    (Hls_isSupported env); reflexivity.
Qed.

(** X2. The mode after mounting with a sink: [CompatibilityEngine] exactly
    when hls.js is supported and either the platform is Android or the sink
    answers the probe for the HLS MIME type with the empty string. *)
Theorem initial_mode (v : Sink) (source : string) (vis : bool) :
  mode (mount (Some v) source vis)
  = if (isAndroid env || negb (truthy_string (canPlayType v HLS_MIME_TYPE)))
       && Hls_isSupported env
    then CompatibilityEngine else NativeDirect.
Proof. unfold mode. rewrite mount_useHlsCompat. reflexivity. Qed.

(** X3. The calls made while mounting with a sink: the source is always
    first assigned to the sink and loaded natively, because the source
    effect of the first render still sees the initial mode; when detection
    chose the engine, the re-render then constructs it, attaches it, loads
    the source through it and writes back the rate the native load left. *)
Theorem mount_calls (v : Sink) (source : string) (vis : bool) :
  ops (playback (mount (Some v) source vis))
  = ([OpSetSrc source; OpLoad]
     ++ match mode (mount (Some v) source vis) with
        | NativeDirect => []
        | CompatibilityEngine =>
            [OpHlsNew; OpAttachMedia; OpLoadSource source;
             OpSetPlaybackRate (defaultPlaybackRate v)]
        end)%list.
Proof.
  unfold mode, mount, commit, detectEffect, USE_NATIVE_HLS; simpl.
  destruct (isAndroid env), (truthy_string (canPlayType v HLS_MIME_TYPE)),
    (Hls_isSupported env); simpl; rewrite ?String.eqb_refl; reflexivity.
Qed.

(** X4. Mounting without a sink does nothing to playback: no call is made,
    no engine is constructed, and the mode is [NativeDirect] whatever the
    platform. *)
Theorem mount_without_sink (source : string) (vis : bool) :
  playback (mount None source vis) = mkPlayback None None false false []
  /\ mode (mount None source vis) = NativeDirect
  /\ currentSource (mount None source vis) = source.
Proof.
  unfold mode, mount, commit; simpl. rewrite String.eqb_refl. simpl. auto.
Qed.

Lemma step_stays_native (e : Event) (w : Widget) :
  unsupported_error e = false ->
  useHlsCompat (playback w) = false ->
  useHlsCompat (playback (step e w)) = false.
Proof.
  intros He Hm.
  destruct (step_mode e w) as [-> | (code & -> & Hi & _)]; [exact Hm|].
  unfold unsupported_error in He. congruence.
Qed.

Lemma run_stays_native (es : list Event) (w : Widget) :
  forallb (fun e => negb (unsupported_error e)) es = true ->
  useHlsCompat (playback w) = false ->
  useHlsCompat (playback (run es w)) = false.
Proof.
  revert w. induction es as [|e es IH]; intros w Hes Hm; simpl in *.
  - exact Hm.
  - apply andb_prop in Hes as [He Hes].
    apply IH; [exact Hes|]. apply step_stays_native; [|exact Hm].
    destruct (unsupported_error e); [discriminate | reflexivity].
Qed.

(** X5. A mounted widget in [NativeDirect] stays there for life as long as
    no error with an unsupported code arrives: through every such sequence of
    events (source changes, other errors, commands) the mode is
    [NativeDirect], [hlsRef] is empty and no engine has been constructed or
    attached. *)
Theorem native_for_life (es : list Event) (w : Widget) :
  reachable w ->
  mode w = NativeDirect ->
  forallb (fun e => negb (unsupported_error e)) es = true ->
  mode (run es w) = NativeDirect
  /\ hlsRef (playback (run es w)) = None
  /\ count is_OpHlsNew (ops (playback (run es w))) = 0%nat
  /\ count is_OpAttachMedia (ops (playback (run es w))) = 0%nat.
Proof.
  intros Hr Hm Hes. apply mode_native in Hm.
  pose proof (run_stays_native es w Hes Hm) as Hn.
  pose proof (reachable_run es w Hr) as Hr'.
  pose proof (reachable_engine_iff _ Hr') as Hi. rewrite Hn in Hi.
  destruct (reachable_Inv _ Hr') as (_ & _ & Hnew & Hatt & _).
  rewrite Hi in Hnew, Hatt.
  repeat split; try assumption.
  - apply mode_native, Hn.
  - destruct (hlsRef (playback (run es w))); [discriminate | reflexivity].
Qed.

(** ** Source changes, continued *)

(** X6. Being given the source it already has is nothing to the widget:
    no reload, no call on the engine, no change of state. *)
Theorem same_source_no_reload (w : Widget) :
  step (SetSource (currentSource w)) w = w.
Proof.
  unfold step, handle, setSource. rewrite widget_eta. apply commit_same.
Qed.

(** X7. In [NativeDirect] a change of source makes two calls, the
    assignment of [src] and [load()], after which the sink's [src] is the
    new source; the engine reference, the mode and the metadata-loaded flag
    are as before. *)
Theorem native_source_change_calls (source : string) (w : Widget) (v : Sink) :
  video (playback w) = Some v ->
  mode w = NativeDirect ->
  source <> currentSource w ->
  let w1 := step (SetSource source) w in
  ops (playback w1) = (ops (playback w) ++ [OpSetSrc source; OpLoad])%list
  /\ option_map src (video (playback w1)) = Some source
  /\ hlsRef (playback w1) = hlsRef (playback w)
  /\ mode w1 = NativeDirect
  /\ loadedMetadata (playback w1) = loadedMetadata (playback w)
  /\ currentSource w1 = source.
Proof.
  intros Hv Hm Hne w1.
  pose proof (native_source_change source w v Hv Hm Hne) as Hp.
  fold w1 in Hp. unfold mode. rewrite Hp. simpl.
  apply mode_native in Hm. rewrite Hm.
  repeat split.
Qed.

Lemma handle_native_ops (e : Event) (w : Widget) :
  count is_OpSetSrc (ops (playback (handle e w)))
  = count is_OpSetSrc (ops (playback w))
  /\ count is_OpLoad (ops (playback (handle e w)))
     = count is_OpLoad (ops (playback w)).
Proof.
  destruct e; unfold_handlers; simpl; split_ifs; simpl;
    rewrite ?count_app; simpl; rewrite ?Nat.add_0_r; auto.
Qed.

Lemma sourceEffect_compat_native_ops (source : string) (p : Playback) :
  count is_OpSetSrc (ops (sourceEffect true source p))
  = count is_OpSetSrc (ops p)
  /\ count is_OpLoad (ops (sourceEffect true source p))
     = count is_OpLoad (ops p).
Proof.
  unfold sourceEffect. destruct (video p); [|auto]. simpl.
  destruct (hlsRef p); simpl; rewrite !count_app; simpl;
    rewrite !Nat.add_0_r; auto.
Qed.

Lemma step_compat_native_ops (e : Event) (w : Widget) :
  useHlsCompat (playback w) = true ->
  count is_OpSetSrc (ops (playback (step e w)))
  = count is_OpSetSrc (ops (playback w))
  /\ count is_OpLoad (ops (playback (step e w)))
     = count is_OpLoad (ops (playback w)).
Proof.
  intros Hm. destruct (handle_native_ops e w) as [Hs Hl].
  pose proof (handle_keeps_compat e w Hm) as Hm'.
  unfold step.
  destruct (commit_playback w (handle e w)) as [-> | ->]; [auto|].
  rewrite Hm'.
  destruct (sourceEffect_compat_native_ops (currentSource (handle e w))
              (playback (handle e w))) as [-> ->]. auto.
Qed.

(** X8. Once the mode is [CompatibilityEngine] the widget never again
    assigns the sink's [src] or calls its [load()]: through every sequence
    of events the numbers of both calls stay what they were. *)
Theorem compat_never_reloads_natively (es : list Event) (w : Widget) :
  mode w = CompatibilityEngine ->
  count is_OpSetSrc (ops (playback (run es w)))
  = count is_OpSetSrc (ops (playback w))
  /\ count is_OpLoad (ops (playback (run es w)))
     = count is_OpLoad (ops (playback w)).
Proof.
  intros Hm. apply mode_compat in Hm.
  revert w Hm. induction es as [|e es IH]; intros w Hm; simpl; [auto|].
  destruct (IH (step e w) (step_keeps_compat e w Hm)) as [-> ->].
  apply step_compat_native_ops, Hm.
Qed.

(** ** Notifications *)

Lemma commit_toasts (prev next : Widget) :
  toasts (commit prev next) = toasts next.
Proof. reflexivity. Qed.

Lemma handle_toasts (e : Event) (w : Widget) :
  toasts (handle e w) = toasts w
  \/ (e = UploadFrame
      /\ exists t, emitted_toast t
                   /\ toasts (handle e w) = (toasts w ++ [t])%list).
Proof.
  destruct e; try (left; unfold_handlers; simpl; split_ifs; reflexivity).
  unfold handle, onUploadFrame.
  destruct (video (playback w)) as [v|]; [|left; reflexivity].
  destruct (onUploadFrame_prop env) as [upload|]; [|left; reflexivity].
  destruct (upload (currentTime v)) as [|status|]; [| |left; reflexivity].
  - right. split; [reflexivity|]. eexists. split; [|reflexivity].
    unfold emitted_toast; simpl. auto.
  - right. split; [reflexivity|].
    destruct (Z.eqb status 200); eexists; (split; [|reflexivity]);
      unfold emitted_toast; simpl; auto.
Qed.

Lemma run_toasts (es : list Event) (w : Widget) :
  Forall emitted_toast (toasts w) ->
  Forall emitted_toast (toasts (run es w)).
Proof.
  revert w. induction es as [|e es IH]; intros w H; simpl; [exact H|].
  apply IH. unfold step. rewrite commit_toasts.
  destruct (handle_toasts e w) as [-> | (_ & t & Ht & ->)]; [exact H|].
  apply Forall_app. split; [exact H|]. constructor; [exact Ht | constructor].
Qed.

(** X9. Every notification a mounted widget has emitted is a success-level
    toast at the top centre carrying one of the two messages of the module:
    the widget never emits an error-level toast, not even for a failed
    submission. *)
Theorem toasts_are_success_toasts (w : Widget) :
  reachable w -> Forall emitted_toast (toasts w).
Proof.
  intros (v & source & vis & es & ->). apply run_toasts. constructor.
Qed.

(** X10. An event emits at most one notification, and only the frame upload
    emits any. *)
Theorem toasts_only_from_upload (e : Event) (w : Widget) :
  toasts (step e w) = toasts w
  \/ (e = UploadFrame
      /\ exists t, toasts (step e w) = (toasts w ++ [t])%list).
Proof.
  unfold step. rewrite commit_toasts.
  destruct (handle_toasts e w) as [H | (He & t & _ & Ht)];
    [left; exact H | right; split; [exact He | exists t; exact Ht]].
Qed.

(** ** A widget without its sink *)

(** X11. While [videoRef.current] is not set, the error callback, the
    pointer callback, play/pause, seek, set-rate and the frame upload are
    all dropped: the state is exactly as before. *)
Theorem no_sink_no_effect (e : Event) (w : Widget) :
  video (playback w) = None ->
  guarded_by_sink e = true ->
  step e w = w.
Proof.
  intros Hv He. unfold step.
  assert (Hh : handle e w = w).
  { destruct e; try discriminate; unfold_handlers; rewrite ?Hv; simpl.
    - rewrite Bool.andb_false_r. reflexivity.
    - destruct (listener (ctl w)); reflexivity.
    - reflexivity.
    - reflexivity.
    - reflexivity.
    - reflexivity. }
  rewrite Hh. apply commit_same.
Qed.

(** ** Seeking *)

(** X12. Seeking never takes the current time below zero: from a time that
    is not negative, whatever the offset, the time after [onSeek] is not
    negative either. *)
Theorem seek_never_negative (diff : Q) (w : Widget) (v : Sink) :
  video (playback w) = Some v ->
  0 <= currentTime v ->
  exists v', video (playback (step (Seek diff) w)) = Some v'
             /\ 0 <= currentTime v'.
Proof.
  intros Hv Hpos.
  destruct (Qeq_bool (currentTime v) 0) eqn:E.
  - exists v. split; [|exact Hpos].
    unfold step, handle, onSeek. rewrite Hv. unfold falsy_number. rewrite E.
    rewrite commit_same. exact Hv.
  - eexists. split.
    + unfold step, handle. rewrite commit_quiet;
        unfold onSeek, falsy_number; rewrite Hv, E; reflexivity.
    + simpl. apply Q.le_max_l.
Qed.


(** ** Controls, continued *)

Lemma handle_currentSource (e : Event) (w : Widget) :
  currentSource (handle e w)
  = match e with SetSource s => s | _ => currentSource w end.
Proof. destruct e; unfold_handlers; simpl; split_ifs; congruence. Qed.

(** An event that changes neither the source, nor the pin, nor the mode is
    its callback and nothing more: the re-render runs no effect. *)
Lemma step_quiet (e : Event) (w : Widget) :
  unsupported_error e = false ->
  match e with SetSource _ | ControlsOpen _ => False | _ => True end ->
  step e w = handle e w.
Proof.
  intros Hu He. unfold step. apply commit_quiet.
  - destruct (handle_mode e w) as [H | (code & -> & Hi & _)];
      [symmetry; exact H|].
    unfold unsupported_error in Hu. congruence.
  - rewrite handle_currentSource. destruct e; try reflexivity. contradiction.
  - rewrite handle_controlsOpen. destruct e; try reflexivity. contradiction.
Qed.

Lemma commit_ctl (prev next : Widget) :
  isPlaying (ctl (commit prev next)) = isPlaying (ctl next)
  /\ controls (ctl (commit prev next)) = controls (ctl next)
  /\ timers (ctl (commit prev next)) = timers (ctl next)
  /\ mobileCtrlTimeout (ctl (commit prev next)) = mobileCtrlTimeout (ctl next)
  /\ nextTimerId (ctl (commit prev next)) = nextTimerId (ctl next).
Proof.
  unfold commit; simpl. destruct (Bool.eqb _ _); simpl; auto.
Qed.

(** X14. A click on the wrapper toggles the [controls] cell off desktop and
    does nothing on desktop; two clicks in a row always bring the widget
    back to the state it was in. *)
Theorem click_toggles (w : Widget) :
  controls (ctl (step Click w))
  = (if isDesktop env then controls (ctl w) else negb (controls (ctl w)))
  /\ step Click (step Click w) = w.
Proof.
  rewrite !(step_quiet Click) by (simpl; auto).
  unfold handle, onClick.
  destruct (isDesktop env); [auto|].
  split; [reflexivity|].
  destruct w as [cs vis p c ts]; destruct c; simpl.
  unfold with_ctl, setControls; simpl. rewrite Bool.negb_involutive.
  reflexivity.
Qed.

(** X15. The playing flag shown to the controls follows the sink's play and
    pause events and nothing else: in particular the play/pause command
    itself does not write it. *)
Theorem isPlaying_follows_sink_events (e : Event) (w : Widget) :
  isPlaying (ctl (step e w))
  = match e with
    | VideoPlay => true
    | VideoPause => false
    | _ => isPlaying (ctl w)
    end.
Proof.
  unfold step. destruct (commit_ctl w (handle e w)) as (-> & _).
  destruct e; unfold_handlers; simpl; split_ifs; congruence.
Qed.

(** X16. The transport commands (play/pause, seek, set rate) touch the sink
    only: control state, notifications, engine reference, mode,
    metadata-loaded flag and props are as before. *)
Theorem transport_commands_frame (e : Event) (w : Widget) :
  transport_command e = true ->
  ctl (step e w) = ctl w
  /\ toasts (step e w) = toasts w
  /\ hlsRef (playback (step e w)) = hlsRef (playback w)
  /\ useHlsCompat (playback (step e w)) = useHlsCompat (playback w)
  /\ loadedMetadata (playback (step e w)) = loadedMetadata (playback w)
  /\ currentSource (step e w) = currentSource w
  /\ visible (step e w) = visible w.
Proof.
  intros He.
  rewrite step_quiet by (destruct e; try discriminate; simpl; auto).
  destruct e; try discriminate; unfold_handlers; simpl; split_ifs;
    repeat split; congruence.
Qed.

(** X17. Only the fallback clears the metadata-loaded flag, and only the
    loaded-metadata event sets it: a change of source, in either mode, and
    every error that does not trigger the fallback leave the video as
    visible or hidden as it was. *)
Theorem metadata_flag (e : Event) (w : Widget) :
  unsupported_error e = false ->
  loadedMetadata (playback (step e w))
  = match e with
    | VideoLoadedMetadata => true
    | _ => loadedMetadata (playback w)
    end.
Proof.
  intros Hu. unfold step. rewrite commit_loadedMetadata.
  destruct e; try (unfold_handlers; simpl; split_ifs; congruence).
  unfold handle, onError. unfold unsupported_error in Hu.
  rewrite Hu, Bool.andb_false_r. reflexivity.
Qed.

(** ** Hide timers *)

Lemma mount_ctl (v : option Sink) (source : string) (vis : bool) :
  timers (ctl (mount v source vis)) = []
  /\ mobileCtrlTimeout (ctl (mount v source vis)) = None
  /\ nextTimerId (ctl (mount v source vis)) = 1%nat.
Proof. unfold mount, commit; simpl. auto. Qed.

Lemma step_never_arms (e : Event) (w : Widget) :
  isMobile env = false ->
  timers (ctl w) = [] /\ mobileCtrlTimeout (ctl w) = None ->
  timers (ctl (step e w)) = []
  /\ mobileCtrlTimeout (ctl (step e w)) = None.
Proof.
  intros Hm [Ht Hc]. unfold step.
  destruct (commit_ctl w (handle e w)) as (_ & _ & -> & -> & _).
  destruct e; unfold_handlers; unfold pending; rewrite ?Hm, ?Hc, ?Ht; simpl;
    split_ifs; auto.
Qed.

Lemma non_mobile_timers (w : Widget) :
  isMobile env = false ->
  reachable w ->
  timers (ctl w) = [] /\ mobileCtrlTimeout (ctl w) = None.
Proof.
  intros Hm (v & source & vis & es & ->).
  assert (H0 : timers (ctl (mount (Some v) source vis)) = []
               /\ mobileCtrlTimeout (ctl (mount (Some v) source vis)) = None).
  { destruct (mount_ctl (Some v) source vis) as (? & ? & _). auto. }
  revert H0. generalize (mount (Some v) source vis).
  induction es as [|e es IH]; intros w H0; simpl; [exact H0|].
  apply IH, step_never_arms; assumption.
Qed.

(** X18. Off mobile no hide timer is ever armed: a mounted widget has no
    pending timer and nothing in its timer cell, whatever has happened. *)
Theorem non_mobile_never_arms (w : Widget) :
  isMobile env = false ->
  reachable w ->
  timers (ctl w) = [] /\ mobileCtrlTimeout (ctl w) = None.
Proof. apply non_mobile_timers. Qed.

Lemma TInv_ext (c c' : Controls) :
  timers c' = timers c ->
  nextTimerId c' = nextTimerId c ->
  mobileCtrlTimeout c' = mobileCtrlTimeout c ->
  TInv c -> TInv c'.
Proof. unfold TInv. intros -> -> ->. auto. Qed.

Lemma hide_timer_mono (n m : nat) (t : Timer) :
  (n <= m)%nat -> hide_timer n t -> hide_timer m t.
Proof. unfold hide_timer. intros Hle [Hd Hi]. split; [exact Hd | lia]. Qed.

Lemma TInv_arm (c : Controls) :
  TInv c -> TInv (armMobileCtrlTimeout 4000 c).
Proof.
  intros (Hf & Hn & Hc). unfold TInv, armMobileCtrlTimeout; simpl.
  split; [|split].
  - apply Forall_app. split.
    + eapply Forall_impl; [|exact Hf].
      intros t. apply hide_timer_mono. lia.
    + constructor; [|constructor]. unfold hide_timer; simpl. split; [auto|lia].
  - rewrite map_app; simpl.
    apply NoDup_app; [exact Hn | repeat constructor; auto |].
    intros id Hin [Heq | []]. subst id.
    apply in_map_iff in Hin as (t & Hid & Hin).
    rewrite Forall_forall in Hf. destruct (Hf t Hin) as [_ Hlt]. lia.
  - intros id Hid. injection Hid as <-. lia.
Qed.

Lemma NoDup_map_filter (f : Timer -> bool) (l : list Timer) :
  NoDup (map timer_id l) -> NoDup (map timer_id (filter f l)).
Proof.
  induction l as [|t l IH]; simpl; intros Hn; [exact Hn|].
  inversion Hn as [|? ? Hnotin Hn']; subst.
  destruct (f t); simpl; [|apply IH, Hn'].
  constructor; [|apply IH, Hn'].
  intros Hin. apply Hnotin.
  apply in_map_iff in Hin as (t' & Hid & Hin).
  apply filter_In in Hin as [Hin _].
  apply in_map_iff. exists t'. auto.
Qed.

Lemma Forall_filter_keep (P : Timer -> Prop) (f : Timer -> bool)
      (l : list Timer) :
  Forall P l -> Forall P (filter f l).
Proof.
  intros H. apply Forall_forall. intros t Hin.
  apply filter_In in Hin as [Hin _].
  rewrite Forall_forall in H. auto.
Qed.

Lemma TInv_clear (id : nat) (c : Controls) :
  TInv c -> TInv (clearTimeout id c).
Proof.
  intros (Hf & Hn & Hc). unfold TInv, clearTimeout; simpl.
  split; [|split]; [apply Forall_filter_keep, Hf
                   | apply NoDup_map_filter, Hn | exact Hc].
Qed.

Lemma TInv_setIsPlaying (b : bool) (c : Controls) :
  TInv c -> TInv (setIsPlaying b c).
Proof. apply TInv_ext; reflexivity. Qed.

Lemma TInv_setControls (b : bool) (c : Controls) :
  TInv c -> TInv (setControls b c).
Proof. apply TInv_ext; reflexivity. Qed.

Lemma TInv_setControlsOpen (b : bool) (c : Controls) :
  TInv c -> TInv (setControlsOpen b c).
Proof. apply TInv_ext; reflexivity. Qed.

Lemma handle_TInv (e : Event) (w : Widget) :
  TInv (ctl w) -> TInv (ctl (handle e w)).
Proof.
  intros H.
  destruct e; unfold_handlers; simpl; split_ifs;
    repeat first [ exact H
                 | apply TInv_arm
                 | apply TInv_clear
                 | apply TInv_setIsPlaying
                 | apply TInv_setControls
                 | apply TInv_setControlsOpen ].
Qed.

Lemma step_TInv (e : Event) (w : Widget) :
  TInv (ctl w) -> TInv (ctl (step e w)).
Proof.
  intros H. unfold step.
  destruct (commit_ctl w (handle e w)) as (_ & _ & Ht & Hm & Hn).
  eapply TInv_ext; [exact Ht | exact Hn | exact Hm | apply handle_TInv, H].
Qed.

Lemma reachable_TInv (w : Widget) : reachable w -> TInv (ctl w).
Proof.
  intros (v & source & vis & es & ->).
  assert (H0 : TInv (ctl (mount (Some v) source vis))).
  { destruct (mount_ctl (Some v) source vis) as (Ht & Hm & Hn).
    unfold TInv. rewrite Ht, Hm.
    split; [constructor | split; [constructor | discriminate]]. }
  revert H0. generalize (mount (Some v) source vis).
  induction es as [|e es IH]; intros w H0; simpl; [exact H0|].
  apply IH, step_TInv, H0.
Qed.

(** X19. Every pending timer of a mounted widget is a 4000 ms hide timer,
    and no two pending timers share an id. *)
Theorem pending_timers_well_formed (w : Widget) :
  reachable w ->
  Forall (fun t => timer_delay t = 4000%nat) (timers (ctl w))
  /\ NoDup (map timer_id (timers (ctl w))).
Proof.
  intros Hr. destruct (reachable_TInv w Hr) as (Hf & Hn & _).
  split; [|exact Hn].
  eapply Forall_impl; [|exact Hf]. intros t [Hd _]. exact Hd.
Qed.

Lemma filter_fresh (next : nat) (l : list Timer) :
  Forall (hide_timer next) l ->
  filter (fun t => negb (Nat.eqb (timer_id t) next)) l = l.
Proof.
  induction 1 as [|t l [_ Hlt] _ IH]; simpl; [reflexivity|].
  destruct (Nat.eqb_spec (timer_id t) next) as [Heq | _]; [lia|].
  simpl. rewrite IH. reflexivity.
Qed.

(** X20. On mobile, a pause that follows a play cancels exactly the timer
    that play armed: the pending timers are those from before the play, the
    controls are showing and the player is marked paused. *)
Theorem mobile_play_then_pause (w : Widget) :
  isMobile env = true ->
  reachable w ->
  let w2 := run [VideoPlay; VideoPause] w in
  timers (ctl w2) = timers (ctl w)
  /\ controls (ctl w2) = true
  /\ isPlaying (ctl w2) = false.
Proof.
  intros Hm Hr w2. destruct (reachable_TInv w Hr) as (Hf & _ & _).
  unfold w2.
  change (run [VideoPlay; VideoPause] w)
    with (step VideoPause (step VideoPlay w)).
  rewrite (step_quiet VideoPause), (step_quiet VideoPlay) by (simpl; auto).
  unfold handle, onPause, onPlay. rewrite Hm. simpl.
  rewrite filter_app, (filter_fresh _ _ Hf). simpl.
  rewrite Nat.eqb_refl. simpl. rewrite app_nil_r. auto.
Qed.

(** X21. On mobile, when the timer armed by a play fires, the [controls]
    cell goes off and the timer is gone: from then on the controls show only
    while the widget is visible and the pin is set. *)
Theorem mobile_play_then_timer (w : Widget) :
  isMobile env = true ->
  reachable w ->
  let w2 := run [VideoPlay; TimerFires (nextTimerId (ctl w))] w in
  controls (ctl w2) = false
  /\ show w2 = visible w && controlsOpen (ctl w)
  /\ timers (ctl w2) = timers (ctl w).
Proof.
  intros Hm Hr w2. destruct (reachable_TInv w Hr) as (Hf & _ & _).
  unfold w2.
  change (run [VideoPlay; TimerFires (nextTimerId (ctl w))] w)
    with (step (TimerFires (nextTimerId (ctl w))) (step VideoPlay w)).
  rewrite (step_quiet (TimerFires _)), (step_quiet VideoPlay)
    by (simpl; auto).
  unfold handle, timerFires, onPlay, pending, show. rewrite Hm. simpl.
  rewrite existsb_app. simpl. rewrite Nat.eqb_refl, Bool.orb_true_r. simpl.
  rewrite filter_app, (filter_fresh _ _ Hf). simpl.
  rewrite Nat.eqb_refl. simpl. rewrite app_nil_r. auto.
Qed.

(** ** The pointer *)

(** X22. Off desktop no pointer callback is registered: pointer moves
    change nothing in a mounted widget. *)
Theorem mousemove_off_desktop (x y : Q) (w : Widget) :
  isDesktop env = false ->
  reachable w ->
  step (MouseMove x y) w = w.
Proof.
  intros Hd Hr. destruct (reachable_Inv w Hr) as (_ & _ & _ & _ & Hl).
  unfold listenerEffect in Hl. rewrite Hd in Hl. simpl in Hl.
  unfold step, handle, onMouseMove. rewrite Hl. apply commit_same.
Qed.

(** X23. On a desktop that is not also a mobile device the [controls] cell
    of a mounted widget is written by pointer moves only: no other event,
    the clearing of the pin included, changes it. *)
Theorem desktop_controls_only_pointer (e : Event) (w : Widget) :
  isDesktop env = true ->
  isMobile env = false ->
  reachable w ->
  (forall x y, e <> MouseMove x y) ->
  controls (ctl (step e w)) = controls (ctl w).
Proof.
  intros Hd Hm Hr He.
  destruct (non_mobile_timers w Hm Hr) as [Ht _].
  unfold step. destruct (commit_ctl w (handle e w)) as (_ & -> & _).
  destruct e; unfold_handlers; unfold pending; rewrite ?Hd, ?Hm, ?Ht; simpl;
    split_ifs; try reflexivity;
    exfalso; eapply He; reflexivity.
Qed.

End Player.

(** * The properties on concrete widgets *)

(** C1 on a desktop widget playing natively that meets a decode error. *)
Lemma fallback_exactly_once_witness :
  let w := mount reloading_engine desktop_env (Some sample_sink) "a.m3u8" true in
  let w1 := step reloading_engine desktop_env (VideoError MEDIA_ERR_DECODE) w in
  (hlsRef (playback w) = None
   /\ includes unsupportedErrorCodes MEDIA_ERR_DECODE = true)
  /\ mode w = NativeDirect
  /\ mode w1 = CompatibilityEngine
  /\ loadedMetadata (playback w1) = false
  /\ count is_OpHlsNew (ops (playback w1)) = 1%nat
  /\ count is_OpAttachMedia (ops (playback w1)) = 1%nat
  /\ forall (es : list Event) (code' : nat),
       let w2 := run reloading_engine desktop_env es w1 in
       step reloading_engine desktop_env (VideoError code') w2 = w2
       /\ mode w2 = CompatibilityEngine
       /\ count is_OpHlsNew (ops (playback w2)) = 1%nat
       /\ count is_OpAttachMedia (ops (playback w2)) = 1%nat.
Proof.
  split; [split; reflexivity|].
  apply (fallback_exactly_once reloading_engine desktop_env).
  - exists sample_sink, "a.m3u8", true, []. reflexivity.
  - reflexivity.
  - reflexivity.
Defined.

(** C2 on an Android widget, in [CompatibilityEngine] from mounting on, and
    on a desktop widget whose mode an error changes. *)
Lemma mode_one_way_witness :
  let a := mount reloading_engine android_env (Some sample_sink) "a.m3u8" true in
  let d := mount reloading_engine desktop_env (Some sample_sink) "a.m3u8" true in
  (mode a = CompatibilityEngine
   /\ mode (run reloading_engine android_env
                [SetSource "b.m3u8"; VideoError MEDIA_ERR_DECODE;
                 VideoLoadedMetadata; PlayPause false] a)
      = CompatibilityEngine)
  /\ (mode (step reloading_engine desktop_env
                 (VideoError MEDIA_ERR_SRC_NOT_SUPPORTED) d) <> mode d
      /\ exists code,
          VideoError MEDIA_ERR_SRC_NOT_SUPPORTED = VideoError code
          /\ includes unsupportedErrorCodes code = true
          /\ mode d = NativeDirect
          /\ mode (step reloading_engine desktop_env
                        (VideoError MEDIA_ERR_SRC_NOT_SUPPORTED) d)
             = CompatibilityEngine).
Proof.
  split; split.
  - reflexivity.
  - apply (proj1 (mode_one_way reloading_engine android_env)). reflexivity.
  - discriminate.
  - apply (proj2 (proj2 (mode_one_way reloading_engine desktop_env))).
    discriminate.
Defined.

(** C3 fails as stated: on Android without hls.js support the widget mounts
    in [NativeDirect]. *)
Lemma android_without_hls_stays_native :
  isAndroid android_without_hls_env = true
  /\ mode (mount reloading_engine android_without_hls_env
                 (Some sample_sink) "a.m3u8" true)
     = NativeDirect.
Proof. split; reflexivity. Qed.

Lemma android_initial_mode_witness :
  (isAndroid android_env = true /\ Hls_isSupported android_env = true)
  /\ mode (mount reloading_engine android_env (Some sample_sink) "a.m3u8" true)
     = CompatibilityEngine.
Proof.
  split; [split; reflexivity|].
  apply (android_initial_mode reloading_engine android_env); reflexivity.
Defined.

(** C4 on the code: a desktop widget in [NativeDirect] whose rate the user
    has set to 2 is given another source.  The calls made are the
    assignment of [src] and [load()], nothing after them, and the rate comes
    out of the reload at the default 1. *)
Theorem native_reload_loses_rate :
  let w := run reloading_engine desktop_env [SetPlaybackRate 2]
               (mount reloading_engine desktop_env (Some sample_sink)
                      "a.m3u8" true) in
  let w1 := step reloading_engine desktop_env (SetSource "b.m3u8") w in
  mode w = NativeDirect
  /\ playbackRateOf w = Some 2
  /\ ops (playback w1)
     = (ops (playback w) ++ [OpSetSrc "b.m3u8"; OpLoad])%list
  /\ playbackRateOf w1 = Some 1.
Proof. repeat split. Qed.

Lemma compat_source_change_witness :
  let w := run reloading_engine android_env [SetPlaybackRate 2]
               (mount reloading_engine android_env (Some sample_sink)
                      "a.m3u8" true) in
  let w1 := step reloading_engine android_env (SetSource "b.m3u8") w in
  (mode w = CompatibilityEngine /\ playbackRateOf w = Some 2)
  /\ playbackRateOf w1 = Some 2
  /\ count is_OpHlsNew (ops (playback w1)) = 1%nat.
Proof.
  split; [split; reflexivity|].
  assert (Hr : reachable reloading_engine android_env
                 (run reloading_engine android_env [SetPlaybackRate 2]
                      (mount reloading_engine android_env (Some sample_sink)
                             "a.m3u8" true))).
  { exists sample_sink, "a.m3u8", true, [SetPlaybackRate 2]. reflexivity. }
  edestruct (compat_source_change reloading_engine android_env)
    with (source := "b.m3u8") as (_ & _ & Hrate & _ & Hnew & _);
    [exact Hr | reflexivity | reflexivity | discriminate |].
  split; [exact Hrate | exact Hnew].
Defined.

(** C6 fails as stated: when the upload promise rejects, no notification is
    emitted at all. *)
Lemma rejected_upload_emits_nothing :
  let env := uploading_env (fun _ => Rejects) in
  let w := mount reloading_engine env (Some sample_sink) "a.m3u8" true in
  onUploadFrame env w = (w, Rejected)
  /\ toasts (step reloading_engine env UploadFrame w) = [].
Proof. split; reflexivity. Qed.

Lemma upload_frame_notifications_witness :
  let env := uploading_env (fun _ => Resolves 503) in
  let w := mount reloading_engine env (Some sample_sink) "a.m3u8" true in
  let w1 := step reloading_engine env UploadFrame w in
  pausedOf w1 = pausedOf w
  /\ exists t, toasts w1 = (toasts w ++ [t])%list
                /\ toast_message t = msg_failed.
Proof.
  edestruct (upload_frame_notifications reloading_engine
               (uploading_env (fun _ => Resolves 503))
               (mount reloading_engine (uploading_env (fun _ => Resolves 503))
                      (Some sample_sink) "a.m3u8" true))
    as (_ & Hp & _ & Ht); [reflexivity | reflexivity |].
  split; [exact Hp | exact Ht].
Defined.

(** Seeking back by 100 seconds from 30 seconds lands on 0. *)
Example seek_back_clamps_at_zero :
  let w := run reloading_engine desktop_env [VideoTime 30]
               (mount reloading_engine desktop_env (Some sample_sink)
                      "a.m3u8" true) in
  currentTimeOf w = Some 30
  /\ currentTimeOf (step reloading_engine desktop_env (Seek (-100)) w) = Some 0.
Proof. split; reflexivity. Qed.

(** C7 on the code: the sink is at time 0 and the user seeks forward by 5
    seconds.  [onSeek] takes the zero for a missing value and returns; the
    time stays 0, where max(0, 0 + 5) is 5. *)
Theorem seek_forward_from_zero_stuck :
  let w := mount reloading_engine desktop_env (Some sample_sink) "a.m3u8" true in
  currentTimeOf w = Some 0
  /\ currentTimeOf (step reloading_engine desktop_env (Seek 5) w) = Some 0
  /\ Qmax 0 (0 + 5) = 5.
Proof. repeat split. Qed.

Lemma seek_at_zero_is_noop_witness :
  let w := mount reloading_engine desktop_env (Some sample_sink) "a.m3u8" true in
  currentTimeOf w = Some 0
  /\ step reloading_engine desktop_env (Seek 5) w = w.
Proof.
  split; [reflexivity|].
  eapply (seek_at_zero_is_noop reloading_engine desktop_env 5);
    reflexivity.
Defined.

(** C8 fails as stated: the pin is set, the pointer leaves the video, the
    pin is cleared.  The pointer is outside and the pin is clear, and the
    controls still show. *)
Lemma unpinned_outside_still_shown :
  let w := run reloading_engine desktop_env
               [ControlsOpen true; MouseMove 700 400; ControlsOpen false]
               (mount reloading_engine desktop_env (Some sample_sink)
                      "a.m3u8" true) in
  isDesktop desktop_env = true
  /\ option_map (fun v => inside (getBoundingClientRect v) 700 400)
                (video (playback w)) = Some false
  /\ controlsOpen (ctl w) = false
  /\ show w = true.
Proof. repeat split. Qed.

Lemma desktop_controls_witness :
  let w := run reloading_engine desktop_env [ControlsOpen true]
               (mount reloading_engine desktop_env (Some sample_sink)
                      "a.m3u8" true) in
  isDesktop desktop_env = true
  /\ show (step reloading_engine desktop_env (MouseMove 700 400) w) = true
  /\ show (step reloading_engine desktop_env (ControlsOpen false) w) = false.
Proof.
  split; [reflexivity|].
  assert (Hr : reachable reloading_engine desktop_env
                 (run reloading_engine desktop_env [ControlsOpen true]
                      (mount reloading_engine desktop_env (Some sample_sink)
                             "a.m3u8" true))).
  { exists sample_sink, "a.m3u8", true, [ControlsOpen true]. reflexivity. }
  edestruct (desktop_controls reloading_engine desktop_env)
    with (x := 700) (y := 400) as (Hmove & _ & Hclear);
    [reflexivity | exact Hr | reflexivity |].
  split; [exact Hmove | exact Hclear].
Defined.

(** C9 on the code: on mobile the video plays, the source changes (the
    reload pauses the element without a pause event) and playback starts
    again.  Two hide timers are now pending; a pause cancels the second
    only, and the first still fires and hides the controls of the paused
    player. *)
Theorem play_twice_stacks_timers :
  let w := run reloading_engine mobile_env
               [VideoPlay; SetSource "b.m3u8"; VideoPlay]
               (mount reloading_engine mobile_env (Some sample_sink)
                      "a.m3u8" true) in
  let w1 := step reloading_engine mobile_env VideoPause w in
  let w2 := step reloading_engine mobile_env (TimerFires 1) w1 in
  timers (ctl w) = [mkTimer 1 4000; mkTimer 2 4000]
  /\ mobileCtrlTimeout (ctl w) = Some 2%nat
  /\ timers (ctl w1) = [mkTimer 1 4000]
  /\ (isPlaying (ctl w1) = false /\ show w1 = true)
  /\ (isPlaying (ctl w2) = false /\ show w2 = false).
Proof. repeat split. Qed.

(** * The further properties on concrete widgets *)

Lemma engine_iff_compat_witness :
  let a := mount reloading_engine android_env (Some sample_sink) "a.m3u8" true in
  mode a = CompatibilityEngine
  /\ exists h, hlsRef (playback a) = Some h.
Proof.
  split; [reflexivity|].
  apply (engine_iff_compat reloading_engine android_env).
  - exists sample_sink, "a.m3u8", true, []. reflexivity.
  - reflexivity.
Defined.

Lemma native_for_life_witness :
  let w := mount reloading_engine desktop_env (Some sample_sink) "a.m3u8" true in
  let es := [SetSource "b.m3u8"; VideoError MEDIA_ERR_NETWORK; Seek 5;
             SetSource "c.m3u8"] in
  mode w = NativeDirect
  /\ mode (run reloading_engine desktop_env es w) = NativeDirect
  /\ hlsRef (playback (run reloading_engine desktop_env es w)) = None.
Proof.
  split; [reflexivity|].
  edestruct (native_for_life reloading_engine desktop_env)
    as (Hm & Hh & _); [| | |split; [exact Hm | exact Hh]].
  - exists sample_sink, "a.m3u8", true, []. reflexivity.
  - reflexivity.
  - reflexivity.
Defined.

Lemma native_source_change_calls_witness :
  let w := mount reloading_engine desktop_env (Some sample_sink) "a.m3u8" true in
  let w1 := step reloading_engine desktop_env (SetSource "b.m3u8") w in
  mode w = NativeDirect
  /\ ops (playback w1)
     = [OpSetSrc "a.m3u8"; OpLoad; OpSetSrc "b.m3u8"; OpLoad]
  /\ option_map src (video (playback w1)) = Some "b.m3u8".
Proof.
  split; [reflexivity|].
  edestruct (native_source_change_calls reloading_engine desktop_env "b.m3u8")
    as (Ho & Hs & _); [| | |split; [exact Ho | exact Hs]].
  - reflexivity.
  - reflexivity.
  - discriminate.
Defined.

Lemma compat_never_reloads_natively_witness :
  let a := mount reloading_engine android_env (Some sample_sink) "a.m3u8" true in
  let es := [SetSource "b.m3u8"; VideoError MEDIA_ERR_DECODE;
             SetSource "c.m3u8"] in
  mode a = CompatibilityEngine
  /\ count is_OpLoad (ops (playback (run reloading_engine android_env es a)))
     = 1%nat.
Proof.
  split; [reflexivity|].
  edestruct (compat_never_reloads_natively reloading_engine android_env)
    as (_ & Hl); [|exact Hl].
  reflexivity.
Defined.

Lemma toasts_are_success_toasts_witness :
  let env := uploading_env (fun _ => Resolves 503) in
  Forall emitted_toast
         (toasts (run reloading_engine env [UploadFrame; UploadFrame]
                      (mount reloading_engine env (Some sample_sink)
                             "a.m3u8" true))).
Proof.
  apply (toasts_are_success_toasts reloading_engine
           (uploading_env (fun _ => Resolves 503))).
  exists sample_sink, "a.m3u8", true, [UploadFrame; UploadFrame]. reflexivity.
Defined.

Lemma no_sink_no_effect_witness :
  let w := mount reloading_engine desktop_env None "a.m3u8" true in
  video (playback w) = None
  /\ step reloading_engine desktop_env (PlayPause true) w = w.
Proof.
  split; [reflexivity|].
  apply (no_sink_no_effect reloading_engine desktop_env); reflexivity.
Defined.

Lemma seek_never_negative_witness :
  let w := run reloading_engine desktop_env [VideoTime 30]
               (mount reloading_engine desktop_env (Some sample_sink)
                      "a.m3u8" true) in
  exists v', video (playback (step reloading_engine desktop_env
                                   (Seek (-100)) w)) = Some v'
             /\ 0 <= currentTime v'.
Proof.
  eapply (seek_never_negative reloading_engine desktop_env (-100)).
  - reflexivity.
  - vm_compute. discriminate.
Defined.


Lemma transport_commands_frame_witness :
  let w := run reloading_engine mobile_env [VideoPlay]
               (mount reloading_engine mobile_env (Some sample_sink)
                      "a.m3u8" true) in
  ctl (step reloading_engine mobile_env (PlayPause false) w) = ctl w
  /\ toasts (step reloading_engine mobile_env (PlayPause false) w) = toasts w.
Proof.
  edestruct (transport_commands_frame reloading_engine mobile_env
               (PlayPause false)) as (Hc & Ht & _);
    [|split; [exact Hc | exact Ht]].
  reflexivity.
Defined.

Lemma metadata_flag_witness :
  let w := run reloading_engine desktop_env [VideoLoadedMetadata]
               (mount reloading_engine desktop_env (Some sample_sink)
                      "a.m3u8" true) in
  loadedMetadata (playback w) = true
  /\ loadedMetadata
       (playback (step reloading_engine desktop_env (SetSource "b.m3u8") w))
     = true.
Proof.
  split; [reflexivity|].
  apply (metadata_flag reloading_engine desktop_env (SetSource "b.m3u8")).
  reflexivity.
Defined.

Lemma non_mobile_never_arms_witness :
  let w := run reloading_engine desktop_env [VideoPlay; VideoPause; VideoPlay]
               (mount reloading_engine desktop_env (Some sample_sink)
                      "a.m3u8" true) in
  isMobile desktop_env = false
  /\ timers (ctl w) = [] /\ mobileCtrlTimeout (ctl w) = None.
Proof.
  split; [reflexivity|].
  apply (non_mobile_never_arms reloading_engine desktop_env).
  - reflexivity.
  - exists sample_sink, "a.m3u8", true, [VideoPlay; VideoPause; VideoPlay].
    reflexivity.
Defined.

Lemma pending_timers_well_formed_witness :
  let w := run reloading_engine mobile_env
               [VideoPlay; SetSource "b.m3u8"; VideoPlay]
               (mount reloading_engine mobile_env (Some sample_sink)
                      "a.m3u8" true) in
  Forall (fun t => timer_delay t = 4000%nat) (timers (ctl w))
  /\ NoDup (map timer_id (timers (ctl w))).
Proof.
  apply (pending_timers_well_formed reloading_engine mobile_env).
  exists sample_sink, "a.m3u8", true,
    [VideoPlay; SetSource "b.m3u8"; VideoPlay].
  reflexivity.
Defined.

Lemma mobile_play_then_pause_witness :
  let w := mount reloading_engine mobile_env (Some sample_sink) "a.m3u8" true in
  let w2 := run reloading_engine mobile_env [VideoPlay; VideoPause] w in
  isMobile mobile_env = true
  /\ timers (ctl w2) = timers (ctl w)
  /\ controls (ctl w2) = true
  /\ isPlaying (ctl w2) = false.
Proof.
  split; [reflexivity|].
  apply (mobile_play_then_pause reloading_engine mobile_env).
  - reflexivity.
  - exists sample_sink, "a.m3u8", true, []. reflexivity.
Defined.

Lemma mobile_play_then_timer_witness :
  let w := mount reloading_engine mobile_env (Some sample_sink) "a.m3u8" true in
  let w2 := run reloading_engine mobile_env [VideoPlay; TimerFires 1] w in
  isMobile mobile_env = true
  /\ controls (ctl w2) = false
  /\ show w2 = false.
Proof.
  split; [reflexivity|].
  edestruct (mobile_play_then_timer reloading_engine mobile_env
               (mount reloading_engine mobile_env (Some sample_sink)
                      "a.m3u8" true))
    as (Hc & Hs & _); [| |split; [exact Hc | exact Hs]].
  - reflexivity.
  - exists sample_sink, "a.m3u8", true, []. reflexivity.
Defined.

Lemma mousemove_off_desktop_witness :
  let w := mount reloading_engine mobile_env (Some sample_sink) "a.m3u8" true in
  isDesktop mobile_env = false
  /\ step reloading_engine mobile_env (MouseMove 10 10) w = w.
Proof.
  split; [reflexivity|].
  apply (mousemove_off_desktop reloading_engine mobile_env).
  - reflexivity.
  - exists sample_sink, "a.m3u8", true, []. reflexivity.
Defined.

Lemma desktop_controls_only_pointer_witness :
  let w := run reloading_engine desktop_env
               [ControlsOpen true; MouseMove 700 400]
               (mount reloading_engine desktop_env (Some sample_sink)
                      "a.m3u8" true) in
  controls (ctl w) = true
  /\ controls (ctl (step reloading_engine desktop_env (ControlsOpen false) w))
     = controls (ctl w).
Proof.
  split; [reflexivity|].
  apply (desktop_controls_only_pointer reloading_engine desktop_env).
  - reflexivity.
  - reflexivity.
  - exists sample_sink, "a.m3u8", true,
      [ControlsOpen true; MouseMove 700 400].
    reflexivity.
  - discriminate.
Defined.
